(** * SignalFoundry market-data viewer: the React client, embedded and verified

    The development follows the layout of [ui/src], after two modules for
    what the client takes from its platform:
    - [Binary64]        : the order of binary64 numbers, on the integers;
    - [JS]              : the run-time functions the client calls
                          ([parseInt], [toFixed], [trim], [split], [sort],
                          [JSON.parse], property reads, exceptions);
    - [Api]             : [api.ts], the wire types, the price decoding and
                          [fetchHistorical];
    - [LiveStream]      : [components/LiveStream.tsx], the WebSocket message
                          handler and its connection status, behind the
                          [onmessage] of [connectLive];
    - [App]             : [App.tsx], the live trade buffer;
    - [SymbolForm]      : [components/SymbolForm.tsx], the query form;
    - [TradeTape]       : [components/TradeTape.tsx], the trade table rows;
    - [HistoricalChart] : [components/HistoricalChart.tsx], the candlestick
                          series;
    - [AppPage]         : [App.tsx], the historical query and the display
                          area.

    A JavaScript [number] is an IEEE 754 binary64 value and is modelled by
    Rocq's primitive [float]; a JavaScript string is modelled by [string],
    one character per code unit (code units above 255 are not represented).
    React state is threaded explicitly: a handler maps the current state to
    the next state and to the list of callbacks it invoked. *)

From Stdlib Require Import ZArith List String Ascii Bool Lia.
From Stdlib Require Import Floats DecimalString DecimalPos DecimalN.
From Stdlib Require Import Sorted Permutation.
Import ListNotations.

Set Warnings "-register-all".

Local Open Scope string_scope.
Local Open Scope list_scope.

(** ** JavaScript numbers *)

Definition number : Type := float.

(* ------------------------------------------------------------------ *)
(** ** Binary64 numbers on the integer line *)

Module Binary64.
Local Open Scope Z_scope.

Ltac binary64 := unfold fexp, SpecFloat.emin, prec, emax in *.

(** A spec float that is finite or infinite, of sign [s]. *)
Definition signed_nonzero (s : bool) (x : spec_float) : Prop :=
  match x with
  | S754_finite s' _ _ => s' = s
  | S754_infinity s' => s' = s
  | _ => False
  end.

(** A finite operand at the exponent [ez], as a signed integer. *)
Definition aligned (s : bool) (m : positive) (e ez : Z) : Z :=
  cond_Zopp s (Zpos m * 2 ^ (e - ez)).

Definition SFpositive (x : spec_float) : bool :=
  SFltb (S754_zero false) x.

(** The place of a number on the line of integers: its value in units of
    [2^emin], with the infinities beyond every finite number. *)
Definition SFord (x : spec_float) : Z :=
  match x with
  | S754_zero _ => 0
  | S754_nan => 0
  | S754_infinity s => cond_Zopp s (2 ^ (emax - emin))
  | S754_finite s m e => cond_Zopp s (Zpos m * 2 ^ (e - emin))
  end.

Definition ord (x : float) : Z := SFord (Prim2SF x).

(** An element whose key is not [NaN], and the order of two keys. *)
Definition is_number {A : Type} (key : A -> float) (a : A) : Prop :=
  is_nan (key a) = false.

Definition ord_le {A : Type} (key : A -> float) (a b : A) : Prop :=
  ord (key a) <= ord (key b).

(** The comparator [(a, b) => key(a) - key(b)]. *)
Definition difference {A : Type} (key : A -> float) (a b : A) : float :=
  (key a - key b)%float.

End Binary64.

(* ------------------------------------------------------------------ *)
(** ** The parts of the JavaScript run time the client calls *)

Module JS.
Local Open Scope string_scope.

(** *** Numbers *)

(** The number nearest to an integer (ties to even), written 𝔽 in
    ECMAScript. *)
Definition number_of_Z (z : Z) : number :=
  SF2Prim (binary_normalize prec emax z 0 false).

(** The number nearest to the fraction [num / den]. *)
Definition number_of_ratio (num den : positive) : number :=
  let '(q, e, l) := SFdiv_core_binary prec emax (Zpos num) 0 (Zpos den) 0 in
  SF2Prim (binary_round_aux prec emax false q e l).

(** The number nearest to [s * 10^j], for [s > 0]. *)
Definition number_of_decimal (s : Z) (j : Z) : number :=
  match j with
  | Zneg p => number_of_ratio (Z.to_pos s) (Pos.pow 10 p)
  | _ => number_of_Z (s * 10 ^ j)%Z
  end.

(** [ToBoolean] of a number: [NaN], [+0] and [-0] are falsy. *)
Definition truthy (x : number) : bool := negb (is_nan x || is_zero x).

(** [a || b] on numbers. *)
Definition or_else (a b : number) : number := if truthy a then a else b.

(** The decimal digits of a non-negative integer. *)
Definition digits (n : Z) : string :=
  NilZero.string_of_uint (N.to_uint (Z.to_N n)).

Fixpoint zeros (n : nat) : string :=
  match n with
  | O => ""
  | S n' => String "0" (zeros n')
  end.

(** [s.substring(0, n)] and [s.substring(n)]. *)
Fixpoint take (n : nat) (s : string) : string :=
  match n, s with
  | S n', String c r => String c (take n' r)
  | _, _ => ""
  end.

Fixpoint drop (n : nat) (s : string) : string :=
  match n, s with
  | S n', String _ r => drop n' r
  | _, _ => s
  end.

(** *** [Number::toString], radix 10 *)

(** [m * 2^e] as a fraction. *)
Definition fraction (m : positive) (e : Z) : Z * Z :=
  match e with
  | Zneg p => (Zpos m, Z.pow_pos 2 p)
  | _ => (Zpos m * 2 ^ e, 1)%Z
  end.

(** [num / den < 10^n]. *)
Definition below_pow10 (num den n : Z) : bool :=
  match n with
  | Zneg p => (num * Z.pow_pos 10 p <? den)%Z
  | _ => (num <? den * 10 ^ n)%Z
  end.

(** The least [n >= from] with [num / den < 10^n]. *)
Fixpoint decimal_exponent (fuel : nat) (num den from : Z) : Z :=
  match fuel with
  | O => from
  | S fuel' =>
      if below_pow10 num den from then from
      else decimal_exponent fuel' num den (from + 1)
  end.

(** [floor (num / den / 10^j)]. *)
Definition scaled_floor (num den j : Z) : Z :=
  match j with
  | Zneg p => (num * Z.pow_pos 10 p / den)%Z
  | _ => (num / (den * 10 ^ j))%Z
  end.

(** The distance between [s * 10^j] and [num / den], scaled by
    [den * 10^400]. *)
Definition distance (num den s j : Z) : Z :=
  Z.abs (s * 10 ^ (j + 400) * den - num * 10 ^ 400)%Z.

(** The candidates [(n, s)] with [k] digits that read back as [x]. *)
Definition candidates (x : number) (num den nx : Z) (k : Z)
  : list (Z * Z) :=
  filter
    (fun '(n, s) =>
       ((10 ^ (k - 1) <=? s)%Z && (s <? 10 ^ k)%Z &&
        Leibniz.eqb (number_of_decimal s (n - k)) x)%bool)
    (flat_map
       (fun n => let lo := scaled_floor num den (n - k) in
                 [(n, lo); (n, (lo + 1)%Z)])
       [nx; (nx + 1)%Z]).

(** The candidate closest to the value, an even [s] winning a tie. *)
Definition closer (num den k : Z) (a b : Z * Z) : Z * Z :=
  let da := distance num den (snd a) (fst a - k) in
  let db := distance num den (snd b) (fst b - k) in
  if (da <? db)%Z then a
  else if (db <? da)%Z then b
  else if Z.even (snd a) then a else b.

Definition closest (num den k : Z) (l : list (Z * Z)) : option (Z * Z) :=
  match l with
  | [] => None
  | a :: rest => Some (fold_left (closer num den k) rest a)
  end.

(** The shortest [(n, k, s)]: [k] runs from [k] upwards. *)
Fixpoint shortest (fuel : nat) (x : number) (num den nx k : Z)
  : Z * Z * Z :=
  match fuel with
  | O => (nx, k, scaled_floor num den (nx - k))
  | S fuel' =>
      match closest num den k (candidates x num den nx k) with
      | Some (n, s) => (n, k, s)
      | None => shortest fuel' x num den nx (k + 1)
      end
  end.

(** The text for the digits [s] ([k] of them) and the exponent [n]. *)
Definition layout (n k s : Z) : string :=
  let d := digits s in
  if ((k <=? n) && (n <=? 21))%Z then
    d ++ zeros (Z.to_nat (n - k))
  else if ((0 <? n) && (n <=? 21))%Z then
    take (Z.to_nat n) d ++ "." ++ drop (Z.to_nat n) d
  else if ((-6 <? n) && (n <=? 0))%Z then
    "0." ++ zeros (Z.to_nat (- n)) ++ d
  else
    let e := (n - 1)%Z in
    let exponent := (if (e <? 0)%Z then "-" else "+") ++ digits (Z.abs e) in
    if (k =? 1)%Z then d ++ "e" ++ exponent
    else take 1 d ++ "." ++ drop 1 d ++ "e" ++ exponent.

Definition Number_toString (x : number) : string :=
  match Prim2SF x with
  | S754_nan => "NaN"
  | S754_zero _ => "0"
  | S754_infinity s => if s then "-Infinity" else "Infinity"
  | S754_finite sign m e =>
      let '(num, den) := fraction m e in
      let nx := decimal_exponent 800 num den (-330) in
      let '(n, k, s) := shortest 17 (abs x) num den nx 1 in
      (if sign then "-" else "") ++ layout n k s
  end.

(** *** [Number.prototype.toFixed] *)

(** The integer [n] for which [n / 10^f] is nearest to [num / den], the
    larger one when two are as near. *)
Definition nearest_scaled (num den : Z) (f : nat) : Z :=
  ((2 * num * 10 ^ Z.of_nat f + den) / (2 * den))%Z.

Definition toFixed (x : number) (fractionDigits : nat) : string :=
  match Prim2SF x with
  | S754_finite sign m e =>
      let '(num, den) := fraction m e in
      if (10 ^ 21 * den <=? num)%Z then Number_toString x
      else
        let n := nearest_scaled num den fractionDigits in
        let d := digits n in
        let d := zeros (S fractionDigits - String.length d) ++ d in
        let k := String.length d in
        let text :=
          match fractionDigits with
          | O => d
          | _ => take (k - fractionDigits) d ++ "." ++
                 drop (k - fractionDigits) d
          end in
        (if sign then "-" else "") ++ text
  | S754_zero _ =>
      match fractionDigits with
      | O => "0"
      | _ => "0." ++ zeros fractionDigits
      end
  | _ => Number_toString x
  end.


(** *** Strings *)

(** [WhiteSpace] and [LineTerminator] among the code units up to 255:
    TAB, LF, VT, FF, CR, SP and NBSP. *)
Definition isWhiteSpace (c : ascii) : bool :=
  let n := nat_of_ascii c in
  ((9 <=? n) && (n <=? 13) || (n =? 32) || (n =? 160))%nat.

Fixpoint trimStart (s : string) : string :=
  match s with
  | String c r => if isWhiteSpace c then trimStart r else s
  | EmptyString => EmptyString
  end.

Fixpoint trimEnd (s : string) : string :=
  match s with
  | String c r =>
      match trimEnd r with
      | EmptyString => if isWhiteSpace c then EmptyString
                       else String c EmptyString
      | r' => String c r'
      end
  | EmptyString => EmptyString
  end.

(** [String.prototype.trim]. *)
Definition trim (s : string) : string := trimEnd (trimStart s).

(** A string that does not start with white space. *)
Definition no_leading_space (s : string) : Prop :=
  match s with
  | String c _ => isWhiteSpace c = false
  | EmptyString => True
  end.

(** [s.split(sep)] for a separator of one code unit. *)
Fixpoint split (sep : ascii) (s : string) : list string :=
  match s with
  | EmptyString => [EmptyString]
  | String c r =>
      if Ascii.eqb c sep then EmptyString :: split sep r
      else match split sep r with
           | h :: t => String c h :: t
           | [] => [String c EmptyString]
           end
  end.

(** [a.join(sep)]. *)
Fixpoint join (sep : string) (l : list string) : string :=
  match l with
  | [] => ""
  | [x] => x
  | x :: rest => x ++ sep ++ join sep rest
  end.

(** *** [parseInt(string)], no radix given *)

(** The value of a digit in radix [r], if it is one. *)
Definition digit_value (r : Z) (c : ascii) : option Z :=
  let n := Z.of_nat (nat_of_ascii c) in
  let v := if ((48 <=? n) && (n <=? 57))%Z then (n - 48)%Z
           else if ((97 <=? n) && (n <=? 122))%Z then (n - 87)%Z
           else if ((65 <=? n) && (n <=? 90))%Z then (n - 55)%Z
           else 36%Z in
  if (v <? r)%Z then Some v else None.

(** The integer written by the longest prefix of radix-[r] digits, after
    the digits already read as [acc]; [None] when there is no digit. *)
Fixpoint digits_prefix (r : Z) (s : string) (acc : option Z) : option Z :=
  match s with
  | String c rest =>
      match digit_value r c with
      | Some v =>
          digits_prefix r rest
            (Some (match acc with Some a => a * r + v | None => v end)%Z)
      | None => acc
      end
  | EmptyString => acc
  end.

Definition parseInt (input : string) : number :=
  let text := trimStart input in
  let '(negative, text) :=
    match text with
    | String "-" rest => (true, rest)
    | String "+" rest => (false, rest)
    | _ => (false, text)
    end in
  let '(R, text) :=
    match text with
    | String "0" (String "x" rest) => (16%Z, rest)
    | String "0" (String "X" rest) => (16%Z, rest)
    | _ => (10%Z, text)
    end in
  match digits_prefix R text None with
  | None => nan
  | Some mathInt =>
      if (mathInt =? 0)%Z then (if negative then neg_zero else zero)
      else number_of_Z (if negative then - mathInt else mathInt)%Z
  end.

(** *** Values read from JSON *)

(** What [JSON.parse] and [response.json()] produce; the members of an
    object are listed with the member that a lookup finds first. *)
Inductive json : Type :=
| JNull
| JBool (b : bool)
| JNumber (n : number)
| JString (s : string)
| JArray (items : list json)
| JObject (members : list (string * json)).

(** A value that may also be [undefined]. *)
Inductive value : Type :=
| undefined
| defined (j : json).

Fixpoint lookup (key : string) (members : list (string * json))
  : option json :=
  match members with
  | [] => None
  | (k, v) :: rest => if String.eqb k key then Some v else lookup key rest
  end.

(** [ToBoolean]. *)
Definition ToBoolean (v : value) : bool :=
  match v with
  | undefined => false
  | defined JNull => false
  | defined (JBool b) => b
  | defined (JNumber n) => truthy n
  | defined (JString s) => negb (String.eqb s "")
  | defined (JArray _) => true
  | defined (JObject _) => true
  end.

(** [ToString] of a value read from JSON. *)
Fixpoint json_toString (j : json) : string :=
  match j with
  | JNull => "null"
  | JBool b => if b then "true" else "false"
  | JNumber n => Number_toString n
  | JString s => s
  | JArray items =>
      join ","
        ((fix each (l : list json) : list string :=
            match l with
            | [] => []
            | JNull :: rest => "" :: each rest
            | x :: rest => json_toString x :: each rest
            end) items)
  | JObject _ => "[object Object]"
  end.

Definition ToString (v : value) : string :=
  match v with
  | undefined => "undefined"
  | defined j => json_toString j
  end.

(** *** Exceptions *)

Inductive exception : Type :=
| TypeError
| SyntaxError
| RangeError
| Error (message : string).

(** [new Error(message)]. *)
Definition new_Error (message : value) : exception :=
  match message with
  | undefined => Error ""
  | _ => Error (ToString message)
  end.

(** The outcome of a call or of an awaited promise. *)
Inductive completion (A : Type) : Type :=
| returns (a : A)
| throws (e : exception).
Arguments returns {A} a.
Arguments throws {A} e.

Definition bind {A B : Type} (c : completion A) (k : A -> completion B)
  : completion B :=
  match c with
  | returns a => k a
  | throws e => throws e
  end.

(** [v[key]] for a key that names no built-in property ([length], an
    index, a method of a prototype): [null] has no properties to read,
    an object answers with its member, anything else with [undefined]. *)
Definition Get (v : json) (key : string) : completion value :=
  match v with
  | JNull => throws TypeError
  | JObject members =>
      returns (match lookup key members with
               | Some j => defined j
               | None => undefined
               end)
  | _ => returns undefined
  end.

(** [a || b]. *)
Definition or_value (a b : value) : value := if ToBoolean a then a else b.

(** *** [Array.prototype.sort(comparefn)]

    The engine chooses the algorithm; the sort is stable, and for a
    consistent comparator every stable algorithm returns the same array.
    The one here inserts each element before the first element of the
    sorted rest that the comparator does not put ahead of it.  A
    comparator result of [NaN] counts as [0]. *)

Definition comes_after {A : Type} (comparefn : A -> A -> number) (x y : A)
  : bool :=
  (0 <? comparefn x y)%float.

Fixpoint insert {A : Type} (comparefn : A -> A -> number) (x : A)
    (sorted : list A) : list A :=
  match sorted with
  | [] => [x]
  | y :: rest =>
      if comes_after comparefn x y then y :: insert comparefn x rest
      else x :: sorted
  end.

Definition sort {A : Type} (comparefn : A -> A -> number) (a : list A)
  : list A :=
  fold_right (insert comparefn) [] a.

(** *** Integers in text, padding, searching *)

(** [String(n)] and a template literal for an integer below [10^21] in
    magnitude. *)
Definition String_of_int (n : Z) : string :=
  (if (n <? 0)%Z then "-" else "") ++ digits (Z.abs n).

Fixpoint repeat_unit (c : ascii) (n : nat) : string :=
  match n with
  | O => ""
  | S n' => String c (repeat_unit c n')
  end.

(** [s.padStart(n, fill)] for a fill of one code unit. *)
Definition padStart (n : nat) (fill : ascii) (s : string) : string :=
  repeat_unit fill (n - String.length s) ++ s.

(** [s.includes(c)] for one code unit. *)
Fixpoint includes (c : ascii) (s : string) : bool :=
  match s with
  | String a r => (Ascii.eqb a c || includes c r)%bool
  | EmptyString => false
  end.

(** The elements of an array with their indices, as a [map] callback
    receives them. *)
Definition indexed {A : Type} (a : list A) : list (nat * A) :=
  combine (seq 0 (List.length a)) a.

(** *** Integers among the numbers *)

(** The integer a number is, when it is one. *)
Definition integer_value (x : number) : option Z :=
  match Prim2SF x with
  | S754_zero _ => Some 0%Z
  | S754_finite s m e =>
      match e with
      | Zneg k =>
          if (Zpos m mod 2 ^ Zpos k =? 0)%Z
          then Some (cond_Zopp s (Zpos m / 2 ^ Zpos k))
          else None
      | _ => Some (cond_Zopp s (Zpos m * 2 ^ e))
      end
  | _ => None
  end.

(** *** [JSON.parse]

    A JSON text is given by its derivation in the JSON grammar: a string
    literal by the string it denotes, a number literal by its sign, its
    digits read as one integer and the power of ten they are scaled by,
    so that the literal denotes exactly [mantissa * 10^exponent]. *)
Inductive document : Type :=
| DNull
| DBool (b : bool)
| DNumber (negative : bool) (mantissa : N) (exponent : Z)
| DString (s : string)
| DArray (items : list document)
| DObject (members : list (string * document)).

(** The value of a number literal: the number nearest to what it
    denotes. *)
Definition number_of_literal (negative : bool) (mantissa : N) (exponent : Z)
  : number :=
  match mantissa with
  | N0 => if negative then neg_zero else zero
  | Npos p =>
      match exponent with
      | Zneg k =>
          let x := number_of_ratio p (Pos.pow 10 k) in
          if negative then (- x)%float else x
      | _ => number_of_Z (cond_Zopp negative (Zpos p * 10 ^ exponent))
      end
  end.

(** [JSON.parse(text)] for a text that is JSON.  Of two members of an
    object with the same key the later one is kept, so the members are
    listed last first. *)
Fixpoint JSON_parse (text : document) : json :=
  match text with
  | DNull => JNull
  | DBool b => JBool b
  | DNumber negative mantissa exponent =>
      JNumber (number_of_literal negative mantissa exponent)
  | DString s => JString s
  | DArray items => JArray (map JSON_parse items)
  | DObject members =>
      JObject (rev (map (fun member =>
                           match member with
                           | (key, v) => (key, JSON_parse v)
                           end) members))
  end.

(** The literal of an integer, in decimal. *)
Definition integer_literal (z : Z) : document :=
  DNumber (z <? 0)%Z (Z.to_N (Z.abs z)) 0.

End JS.

Notation "x <- c ;; k" := (JS.bind c (fun x => k))
  (at level 61, c at next level, right associativity).

(* ------------------------------------------------------------------ *)
(** ** [api.ts] *)

Module Api.
Import JS.

Inductive Schema : Type :=
| trades
| ohlcv_1s
| ohlcv_1m.

(** The string a [Schema] value is at run time. *)
Definition schema_string (s : Schema) : string :=
  match s with
  | trades => "trades"
  | ohlcv_1s => "ohlcv-1s"
  | ohlcv_1m => "ohlcv-1m"
  end.

Record HistoricalRequest : Type := {
  symbols : list string;
  schema : Schema;
  stype_in : option string;
  start_rfc3339 : string;
  end_rfc3339 : string;
  limit : option number
}.

Record TradeRecord : Type := {
  ts_event_unix_ns : number;
  symbol : string;
  price_i64 : number;
  size_u32 : number
}.

Record OhlcvRecord : Type := {
  bar_ts_event_unix_ns : number;
  bar_symbol : string;
  open_i64 : number;
  high_i64 : number;
  low_i64 : number;
  close_i64 : number;
  volume_u64 : number
}.

(** [LiveMessage], a union tagged by its [type] field. *)
Inductive LiveMessage : Type :=
| msg_trade (ts_event_unix_ns : number) (symbol : string)
            (price_i64 : number) (size_u32 : number)
| msg_ohlcv (ts_event_unix_ns : number) (symbol : string)
            (open_i64 high_i64 low_i64 close_i64 : number)
            (volume_u64 : number)
| msg_error (message : string)
| msg_connected (symbols : list string) (schema : string).

(** The request of the README. *)
Definition sample_request : HistoricalRequest :=
  {| symbols := ["ES.FUT"]; schema := trades; stype_in := None;
     start_rfc3339 := "2024-01-01T00:00:00.000Z";
     end_rfc3339 := "2024-01-01T01:00:00.000Z";
     limit := Some 100%float |}.

(** *** Price conversion *)

Definition PRICE_SCALE : number := 1e9%float.

Definition formatPrice (priceI64 : number) : string :=
  toFixed (priceI64 / PRICE_SCALE)%float 2.

Definition formatPriceNumber (priceI64 : number) : number :=
  (priceI64 / PRICE_SCALE)%float.

(** *** [fetchHistorical] *)

(** The response [fetch] resolved to: its status code and what
    [response.json()] resolves to, [None] when the body is not JSON. *)
Record Response : Type := {
  http_status : Z;
  body : option json
}.

(** [response.ok]: the status is in the range 200 to 299. *)
Definition ok (response : Response) : bool :=
  ((200 <=? http_status response) && (http_status response <=? 299))%Z.

(** [response.json()], awaited. *)
Definition Response_json (response : Response) : completion json :=
  match body response with
  | Some j => returns j
  | None => throws SyntaxError
  end.

Definition fetch_failed : string := "Failed to fetch historical data".

(** The [error] member of a response body, when the body is an object
    and the member is a string. *)
Definition error_field (response : Response) : option string :=
  match body response with
  | Some (JObject members) =>
      match lookup "error" members with
      | Some (JString s) => Some s
      | _ => None
      end
  | _ => None
  end.

(** [fetch] is the network: it answers a request with a response, or
    rejects when no response arrives. *)
Definition fetchHistorical
    (fetch : HistoricalRequest -> completion Response)
    (request : HistoricalRequest) : completion json :=
  response <- fetch request ;;
  if negb (ok response) then
    error <- Response_json response ;;
    message <- Get error "error" ;;
    throws (new_Error (or_value message (defined (JString fetch_failed))))
  else
    Response_json response.

(** *** Typed responses and the live connection *)

(** [HistoricalResponse], a union tagged by its [schema] field. *)
Inductive HistoricalResponse : Type :=
| response_trades (data : list TradeRecord)
| response_ohlcv_1s (data : list OhlcvRecord)
| response_ohlcv_1m (data : list OhlcvRecord).

(** *** Parsed values at their declared types

    The types of [api.ts] are erased at run time: [response.json()] and
    [JSON.parse] hand over whatever the text holds.  A parsed value is
    read at a declared type when it has the shape the type says; [None]
    marks a value of another shape, which the typed handlers of this
    development do not cover. *)

Definition as_number (v : option json) : option number :=
  match v with
  | Some (JNumber n) => Some n
  | _ => None
  end.

Definition as_string (v : option json) : option string :=
  match v with
  | Some (JString s) => Some s
  | _ => None
  end.

Fixpoint all_as {A : Type} (as_item : json -> option A) (items : list json)
  : option (list A) :=
  match items with
  | [] => Some []
  | j :: rest =>
      match as_item j, all_as as_item rest with
      | Some a, Some l => Some (a :: l)
      | _, _ => None
      end
  end.

Definition as_array {A : Type} (as_item : json -> option A)
    (v : option json) : option (list A) :=
  match v with
  | Some (JArray items) => all_as as_item items
  | _ => None
  end.

Definition as_TradeRecord (j : json) : option TradeRecord :=
  match j with
  | JObject members =>
      match as_number (lookup "ts_event_unix_ns" members),
            as_string (lookup "symbol" members),
            as_number (lookup "price_i64" members),
            as_number (lookup "size_u32" members) with
      | Some ts, Some sym, Some price, Some size =>
          Some {| ts_event_unix_ns := ts; symbol := sym;
                  price_i64 := price; size_u32 := size |}
      | _, _, _, _ => None
      end
  | _ => None
  end.

Definition as_OhlcvRecord (j : json) : option OhlcvRecord :=
  match j with
  | JObject members =>
      match as_number (lookup "ts_event_unix_ns" members),
            as_string (lookup "symbol" members),
            as_number (lookup "open_i64" members),
            as_number (lookup "high_i64" members),
            as_number (lookup "low_i64" members),
            as_number (lookup "close_i64" members),
            as_number (lookup "volume_u64" members) with
      | Some ts, Some sym, Some o, Some h, Some l, Some c, Some v =>
          Some {| bar_ts_event_unix_ns := ts; bar_symbol := sym;
                  open_i64 := o; high_i64 := h; low_i64 := l;
                  close_i64 := c; volume_u64 := v |}
      | _, _, _, _, _, _, _ => None
      end
  | _ => None
  end.

(** A parsed value as a [LiveMessage]. *)
Definition as_LiveMessage (j : json) : option LiveMessage :=
  match j with
  | JObject members =>
      match as_string (lookup "type" members) with
      | Some type =>
          if String.eqb type "trade" then
            option_map
              (fun r => msg_trade (ts_event_unix_ns r) (symbol r)
                                  (price_i64 r) (size_u32 r))
              (as_TradeRecord j)
          else if String.eqb type "ohlcv" then
            option_map
              (fun r => msg_ohlcv (bar_ts_event_unix_ns r) (bar_symbol r)
                                  (open_i64 r) (high_i64 r) (low_i64 r)
                                  (close_i64 r) (volume_u64 r))
              (as_OhlcvRecord j)
          else if String.eqb type "error" then
            option_map msg_error (as_string (lookup "message" members))
          else if String.eqb type "connected" then
            match as_array (fun s => as_string (Some s))
                           (lookup "symbols" members),
                  as_string (lookup "schema" members) with
            | Some symbols, Some schema =>
                Some (msg_connected symbols schema)
            | _, _ => None
            end
          else None
      | None => None
      end
  | _ => None
  end.

(** A parsed value as what the [historicalData] cell of [App] holds, a
    [HistoricalResponse] or [null].  A falsy value ([null], [false], a
    zero, the empty string) is read as [null]: the page only asks
    whether the cell is falsy and what its [schema] is, and has the same
    answers for all of them. *)
Definition as_HistoricalResponse (j : json)
  : option (option HistoricalResponse) :=
  if negb (ToBoolean (defined j)) then Some None
  else
    match j with
    | JObject members =>
        match as_string (lookup "schema" members) with
        | Some schema =>
            if String.eqb schema "trades" then
              option_map (fun data => Some (response_trades data))
                (as_array as_TradeRecord (lookup "data" members))
            else if String.eqb schema "ohlcv-1s" then
              option_map (fun data => Some (response_ohlcv_1s data))
                (as_array as_OhlcvRecord (lookup "data" members))
            else if String.eqb schema "ohlcv-1m" then
              option_map (fun data => Some (response_ohlcv_1m data))
                (as_array as_OhlcvRecord (lookup "data" members))
            else None
        | None => None
        end
    | _ => None
    end.

(** *** The trade message on the wire *)

(** Modelled from the spec: the [PriceTick] of the data model and the
    live-stream message [{type:"trade", ts_event_unix_ns, symbol,
    price_i64, size_u32}] that carries it.  The server that writes the
    message is not part of the client; the integers are written in
    decimal, digit for digit. *)
Record PriceTick : Type := {
  event_time : Z;
  tick_symbol : string;
  price : Z;
  size : Z
}.

Definition encode_trade (tick : PriceTick) : document :=
  DObject [("type", DString "trade");
           ("ts_event_unix_ns", integer_literal (event_time tick));
           ("symbol", DString (tick_symbol tick));
           ("price_i64", integer_literal (price tick));
           ("size_u32", integer_literal (size tick))].

(** A trade of the first second of 2024, stamped to the nanosecond. *)
Definition sample_tick : PriceTick :=
  {| event_time := 1704067200123456789; tick_symbol := "ES.FUT";
     price := 4512250000000; size := 3 |}.

(** A tick whose time is the largest integer below [2^53]. *)
Definition safe_tick : PriceTick :=
  {| event_time := 9007199254740991; tick_symbol := "ES.FUT";
     price := 4512250000000; size := 3 |}.

(** The [URLSearchParams] that [connectLive] puts in the socket URL. *)
Definition connectLive_params (symbols : list string) (schema : string)
  : list (string * string) :=
  [("symbols", join "," symbols); ("schema", schema)].

(** The value of a parameter, [None] when it is not there. *)
Fixpoint param (name : string) (params : list (string * string))
  : option string :=
  match params with
  | [] => None
  | (k, v) :: rest => if String.eqb k name then Some v else param name rest
  end.

End Api.

(* ------------------------------------------------------------------ *)
(** ** [components/LiveStream.tsx] *)

Module LiveStream.
Import Api.

Inductive Status : Type :=
| connecting
| connected
| error.

(** The socket [connectLive] opened for the props of the component. *)
Record WebSocket : Type := {
  ws_symbols : list string;
  ws_schema : string
}.

Record Props : Type := {
  symbols : list string;
  schema : string
}.

(** [status] and [messageCount] are the two [useState] cells, [wsRef] is
    [wsRef.current] ([None] for [null]). *)
Record State : Type := {
  status : Status;
  messageCount : number;
  wsRef : option WebSocket
}.

(** What a handler does besides updating the state. *)
Inductive Effect : Type :=
| onTrade (trade : TradeRecord)
| onDisconnect
| console_error (label : string) (detail : string)
| console_log (text : string)
| ws_close (ws : WebSocket).

Definition setStatus (s : Status) (st : State) : State :=
  {| status := s; messageCount := messageCount st; wsRef := wsRef st |}.

Definition setMessageCount (f : number -> number) (st : State) : State :=
  {| status := status st; messageCount := f (messageCount st);
     wsRef := wsRef st |}.

Definition handleMessage (msg : LiveMessage) (st : State)
  : State * list Effect :=
  match msg with
  | msg_connected _ _ => (setStatus connected st, [])
  | msg_trade ts sym price size =>
      (setMessageCount (fun prev => (prev + 1)%float) st,
       [onTrade {| ts_event_unix_ns := ts; symbol := sym;
                   price_i64 := price; size_u32 := size |}])
  | msg_error message =>
      (setStatus error st,
       [console_error "WebSocket error message:" message])
  | msg_ohlcv _ _ _ _ _ _ _ => (st, [])
  end.

(** The [type] values [handleMessage] has a branch for. *)
Definition handled (type : string) : bool :=
  existsb (String.eqb type) ["connected"; "trade"; "error"].

(** [ws.onmessage] of [connectLive], with [handleMessage] as [onMessage].
    [event.data] is the JSON text of the frame, or [None] for a frame
    that is not JSON: [JSON.parse] then throws a [SyntaxError], reading
    [type] of a parsed [null] throws a [TypeError], and the [catch] logs
    either.  A value that is no object, or whose [type] is none of the
    three, reaches no branch.  The result is [None] for a message of one
    of the three types that lacks the fields its type declares. *)
Definition onmessage (data : option JS.document) (st : State)
  : option (State * list Effect) :=
  match data with
  | None =>
      Some (st, [console_error "Failed to parse WebSocket message:"
                               "SyntaxError"])
  | Some text =>
      let msg := JS.JSON_parse text in
      match msg with
      | JS.JNull =>
          Some (st, [console_error "Failed to parse WebSocket message:"
                                   "TypeError"])
      | JS.JObject members =>
          match JS.lookup "type" members with
          | Some (JS.JString type) =>
              if handled type
              then option_map (fun m => handleMessage m st)
                              (as_LiveMessage msg)
              else Some (st, [])
          | _ => Some (st, [])
          end
      | _ => Some (st, [])
      end
  end.

Definition handleError (st : State) : State * list Effect :=
  (setStatus error st, [console_error "WebSocket error:" "Event"]).

Definition handleClose (st : State) : State * list Effect :=
  (st, [console_log "WebSocket closed"; onDisconnect]).

(** The cleanup function the effect returns. *)
Definition cleanup (st : State) : State * list Effect :=
  match wsRef st with
  | Some ws =>
      ({| status := status st; messageCount := messageCount st;
          wsRef := None |}, [ws_close ws])
  | None => (st, [])
  end.

(** The effect body: both cells are reset and the socket is opened. *)
Definition mount (p : Props) : State :=
  {| status := connecting;
     messageCount := 0%float;
     wsRef := Some {| ws_symbols := symbols p; ws_schema := schema p |} |}.

(** What the socket can deliver while the component is mounted. *)
Inductive Event : Type :=
| ev_message (msg : LiveMessage)
| ev_error
| ev_close.

Definition step (ev : Event) (st : State) : State * list Effect :=
  match ev with
  | ev_message msg => handleMessage msg st
  | ev_error => handleError st
  | ev_close => handleClose st
  end.

(** A run threads the state through the events in arrival order and
    collects the effects in the order they happened. *)
Fixpoint run (evs : list Event) (st : State) : State * list Effect :=
  match evs with
  | [] => (st, [])
  | ev :: rest =>
      let '(st1, out1) := step ev st in
      let '(st2, out2) := run rest st1 in
      (st2, out1 ++ out2)
  end.

Definition is_connected_msg (ev : Event) : bool :=
  match ev with
  | ev_message (msg_connected _ _) => true
  | _ => false
  end.

Definition is_data_msg (ev : Event) : bool :=
  match ev with
  | ev_message (msg_trade _ _ _ _) => true
  | ev_message (msg_ohlcv _ _ _ _ _ _ _) => true
  | _ => false
  end.

(** A subscription to one symbol and what its socket delivers first: the
    acknowledgement, a trade, the backpressure notice, another trade. *)
Definition sample_props : Props :=
  {| symbols := ["ES.FUT"]; schema := "trades" |}.

Definition sample_trade (ts : number) : LiveMessage :=
  msg_trade ts "ES.FUT" 4512250000000%float 3%float.

Definition sample_events : list Event :=
  [ev_message (msg_connected ["ES.FUT"] "trades");
   ev_message (sample_trade 1704067200000000000%float);
   ev_message (msg_error "backpressure: events dropped");
   ev_message (sample_trade 1704067201000000000%float)].

(** The events whose handler calls [setStatus]. *)
Definition writes_status (ev : Event) : bool :=
  match ev with
  | ev_message (msg_connected _ _) => true
  | ev_message (msg_error _) => true
  | ev_error => true
  | _ => false
  end.

Definition is_close_effect (e : Effect) : bool :=
  match e with
  | ws_close _ | onDisconnect => true
  | _ => false
  end.

(** The status an event's handler passes to [setStatus], if it calls
    it. *)
Definition status_written (ev : Event) : option Status :=
  match ev with
  | ev_message (msg_connected _ _) => Some connected
  | ev_message (msg_error _) => Some error
  | ev_error => Some error
  | _ => None
  end.

Definition written (evs : list Event) : list Status :=
  flat_map (fun ev => match status_written ev with
                      | Some s => [s]
                      | None => []
                      end) evs.

(** The trades among the events, in arrival order. *)
Definition received (evs : list Event) : list TradeRecord :=
  flat_map (fun ev => match ev with
                      | ev_message (msg_trade ts sym price size) =>
                          [{| ts_event_unix_ns := ts; symbol := sym;
                              price_i64 := price; size_u32 := size |}]
                      | _ => []
                      end) evs.

Definition is_close (ev : Event) : bool :=
  match ev with
  | ev_close => true
  | _ => false
  end.

(** [statusText] and [statusColor]. *)
Definition statusText (s : Status) : string :=
  match s with
  | connecting => "Connecting..."
  | connected => "Connected"
  | error => "Error"
  end.

Definition statusColor (s : Status) : string :=
  match s with
  | connecting => "bg-yellow-500"
  | connected => "bg-green-500"
  | error => "bg-red-500"
  end.

End LiveStream.

(* ------------------------------------------------------------------ *)
(** ** [App.tsx]: the live trade buffer *)

Module App.
Import Api.

(** The [useState] cells the live handlers write. *)
Record State : Type := {
  isLiveConnected : bool;
  liveTrades : list TradeRecord;
  currentSymbols : list string;
  currentSchema : Schema
}.

Definition initial : State :=
  {| isLiveConnected := false; liveTrades := [];
     currentSymbols := ["ES.FUT"]; currentSchema := trades |}.

(** [a.slice(0, n)]. *)
Definition slice0 {A : Type} (n : nat) (a : list A) : list A := firstn n a.

Definition handleLiveConnect (symbols : list string) (schema : Schema)
    (st : State) : State :=
  {| isLiveConnected := true; liveTrades := [];
     currentSymbols := symbols; currentSchema := schema |}.

Definition handleLiveDisconnect (st : State) : State :=
  {| isLiveConnected := false; liveTrades := liveTrades st;
     currentSymbols := currentSymbols st;
     currentSchema := currentSchema st |}.

(** [setLiveTrades] with the updater of [handleLiveTrade]. *)
Definition handleLiveTrade (trade : TradeRecord) (st : State) : State :=
  {| isLiveConnected := isLiveConnected st;
     liveTrades :=
       (let prev := liveTrades st in
        let updated := trade :: prev in
        slice0 100 updated);
     currentSymbols := currentSymbols st;
     currentSchema := currentSchema st |}.

(** The state after the trades of [ts] arrived in that order. *)
Definition receive (ts : list TradeRecord) (st : State) : State :=
  fold_left (fun acc t => handleLiveTrade t acc) ts st.

(** The two callbacks [App] passes to [LiveStream]. *)
Definition callback (e : LiveStream.Effect) (st : State) : State :=
  match e with
  | LiveStream.onTrade trade => handleLiveTrade trade st
  | LiveStream.onDisconnect => handleLiveDisconnect st
  | _ => st
  end.

(** The callbacks of a list of effects, in order. *)
Definition dispatch (effects : list LiveStream.Effect) (st : State) : State :=
  fold_left (fun acc e => callback e acc) effects st.

End App.


(* ------------------------------------------------------------------ *)
(** ** [components/SymbolForm.tsx] *)

Module SymbolForm.
Import JS Api.

(** The five [useState] cells of the form; the text fields hold what the
    inputs show. *)
Record State : Type := {
  symbols : string;
  schema : Schema;
  startTime : string;
  endTime : string;
  limit : number
}.

(** The state on first render, for the default range of that moment. *)
Definition initial (defaultStart defaultEnd : string) : State :=
  {| symbols := "ES.FUT"; schema := trades;
     startTime := defaultStart; endTime := defaultEnd;
     limit := 100%float |}.

(** The [onChange] handlers, each given [e.target.value]. *)
Definition symbols_onChange (v : string) (st : State) : State :=
  {| symbols := v; schema := schema st; startTime := startTime st;
     endTime := endTime st; limit := limit st |}.

Definition schema_onChange (v : Schema) (st : State) : State :=
  {| symbols := symbols st; schema := v; startTime := startTime st;
     endTime := endTime st; limit := limit st |}.

Definition start_onChange (v : string) (st : State) : State :=
  {| symbols := symbols st; schema := schema st; startTime := v;
     endTime := endTime st; limit := limit st |}.

Definition end_onChange (v : string) (st : State) : State :=
  {| symbols := symbols st; schema := schema st; startTime := startTime st;
     endTime := v; limit := limit st |}.

Definition limit_onChange (v : string) (st : State) : State :=
  {| symbols := symbols st; schema := schema st; startTime := startTime st;
     endTime := endTime st;
     limit := or_else (parseInt v) 100%float |}.

Inductive Edit : Type :=
| edit_symbols (v : string)
| edit_schema (v : Schema)
| edit_start (v : string)
| edit_end (v : string)
| edit_limit (v : string).

Definition apply_edit (e : Edit) (st : State) : State :=
  match e with
  | edit_symbols v => symbols_onChange v st
  | edit_schema v => schema_onChange v st
  | edit_start v => start_onChange v st
  | edit_end v => end_onChange v st
  | edit_limit v => limit_onChange v st
  end.

Definition apply_edits (es : list Edit) (st : State) : State :=
  fold_left (fun acc e => apply_edit e acc) es st.

(** [symbols.split(',').map(s => s.trim()).filter(s => s.length > 0)]. *)
Definition symbolList (symbols : string) : list string :=
  filter (fun s => (0 <? String.length s)%nat)
         (map (fun s => trim s) (split "," symbols)).

(** *** The limit input and the submit event

    The limit input is [<input type="number" min={1} max={10000}
    value={limit}>] and the form has no [noValidate], so the browser
    fires the submit event only when the input satisfies its
    constraints.  The input shows [String(limit)].  A number input keeps
    a value only if it is a valid floating-point number, which
    ["Infinity"], ["-Infinity"] and ["NaN"] are not: the input is then
    empty, and an empty input that is not required violates no
    constraint.  Otherwise the value reads back as [limit], which must be
    at least [min], at most [max], and [min] plus a whole number of
    steps of one. *)
Definition limit_input_valid (limit : number) : bool :=
  if is_finite limit then
    ((1 <=? limit)%float && (limit <=? 10000)%float &&
     match integer_value limit with
     | Some _ => true
     | None => false
     end)%bool
  else true.

(** The texts a number input reports as its value are the valid
    floating-point numbers of HTML: an optional [-], digits or digits
    with a fraction, and an optional exponent. *)
Definition is_digit (c : ascii) : bool :=
  let n := nat_of_ascii c in ((48 <=? n) && (n <=? 57))%nat.

Fixpoint skip_digits (s : string) : string :=
  match s with
  | String c r => if is_digit c then skip_digits r else s
  | EmptyString => EmptyString
  end.

(** What follows one or more digits at the start of [s]. *)
Definition digits_then (s : string) : option string :=
  match s with
  | String c r => if is_digit c then Some (skip_digits r) else None
  | EmptyString => None
  end.

Definition valid_floating_point_number (s : string) : bool :=
  let s := match s with String "-" r => r | _ => s end in
  let after_mantissa :=
    match digits_then s with
    | Some (String "." r) => digits_then r
    | Some r => Some r
    | None => match s with String "." r => digits_then r | _ => None end
    end in
  match after_mantissa with
  | Some EmptyString => true
  | Some (String c r) =>
      if (Ascii.eqb c "e" || Ascii.eqb c "E")%bool then
        let r := match r with
                 | String "-" r' => r'
                 | String "+" r' => r'
                 | _ => r
                 end in
        match digits_then r with
        | Some EmptyString => true
        | _ => false
        end
      else false
  | None => false
  end.

(** A number of about minus one thousand million, written with 309
    digits and the exponent -300. *)
Definition long_limit_text : string :=
  String "-" (repeat_unit "9" 309 ++ "e-300").

Section Handlers.

(** [new Date(text).toISOString()]: how the text of a datetime-local
    input reads depends on the time zone of the browser; an invalid
    date throws a [RangeError]. *)
Variable Date_toISOString : string -> completion string.

(** The submit handler; it returns the request it hands to
    [onFetchHistorical], [None] when it calls nothing. *)
Definition handleFetchHistorical (st : State)
  : completion (option HistoricalRequest) :=
  let symbolList := symbolList (symbols st) in
  if (List.length symbolList =? 0)%nat then returns None
  else
    startRfc3339 <- Date_toISOString (startTime st) ;;
    endRfc3339 <- Date_toISOString (endTime st) ;;
    returns (Some {| Api.symbols := symbolList;
                     Api.schema := schema st;
                     stype_in := None;
                     start_rfc3339 := startRfc3339;
                     end_rfc3339 := endRfc3339;
                     Api.limit := Some (limit st) |}).

(** A press of the submit button, or of Enter in a field: nothing happens
    while the button is disabled; otherwise the browser validates the
    form and, when every control satisfies its constraints, fires the
    submit event, which runs the handler.  Only the limit input declares
    constraints; [badInput] tells whether a control holds text the
    browser cannot read as a value, such as a half-typed date, which
    fails the validation too.  [None] when no event is fired. *)
Definition submit (isLoading isLiveConnected badInput : bool) (st : State)
  : option (completion (option HistoricalRequest)) :=
  if (isLoading || isLiveConnected)%bool then None
  else if (negb badInput && limit_input_valid (limit st))%bool
       then Some (handleFetchHistorical st)
       else None.

End Handlers.

(** What the live toggle calls. *)
Inductive LiveCall : Type :=
| onLiveDisconnect
| onLiveConnect (symbols : list string) (schema : Schema).

Definition handleLiveToggle (isLiveConnected : bool) (st : State)
  : option LiveCall :=
  if isLiveConnected then Some onLiveDisconnect
  else
    let symbolList := symbolList (symbols st) in
    if (0 <? List.length symbolList)%nat
    then Some (onLiveConnect symbolList (schema st))
    else None.

(** *** The default time range *)

(** What the getters of a [Date] return in the time zone of the
    browser. *)
Record LocalDate : Type := {
  getFullYear : Z;
  getMonth : nat;
  getDate : nat;
  getHours : nat;
  getMinutes : nat
}.

Definition formatForInput (date : LocalDate) : string :=
  let year := String_of_int (getFullYear date) in
  let month :=
    padStart 2 "0" (String_of_int (Z.of_nat (getMonth date + 1))) in
  let day := padStart 2 "0" (String_of_int (Z.of_nat (getDate date))) in
  let hours := padStart 2 "0" (String_of_int (Z.of_nat (getHours date))) in
  let minutes :=
    padStart 2 "0" (String_of_int (Z.of_nat (getMinutes date))) in
  year ++ "-" ++ month ++ "-" ++ day ++ "T" ++ hours ++ ":" ++ minutes.

(** The character of a decimal digit, and the [width] lowest decimal
    digits of [n], the highest first. *)
Definition digit_char (d : nat) : ascii := ascii_of_nat (48 + d).

Fixpoint decimal (width n : nat) : string :=
  match width with
  | O => ""
  | S w => decimal w (n / 10) ++ String (digit_char (n mod 10)) ""
  end.

(** [getDefaultTimeRange], given the current date and the date one hour
    before it. *)
Definition getDefaultTimeRange (now oneHourAgo : LocalDate)
  : string * string :=
  (formatForInput oneHourAgo, formatForInput now).

(** The last value an edit gave to each field. *)
Definition symbols_edits (es : list Edit) : list string :=
  flat_map (fun e => match e with edit_symbols v => [v] | _ => [] end) es.

Definition schema_edits (es : list Edit) : list Schema :=
  flat_map (fun e => match e with edit_schema v => [v] | _ => [] end) es.

Definition start_edits (es : list Edit) : list string :=
  flat_map (fun e => match e with edit_start v => [v] | _ => [] end) es.

Definition end_edits (es : list Edit) : list string :=
  flat_map (fun e => match e with edit_end v => [v] | _ => [] end) es.

Definition limit_edits (es : list Edit) : list number :=
  flat_map (fun e => match e with
                     | edit_limit v => [or_else (parseInt v) 100%float]
                     | _ => []
                     end) es.

End SymbolForm.

(* ------------------------------------------------------------------ *)
(** ** [components/TradeTape.tsx] *)

Module TradeTape.
Import JS Api.

(** The symbol, price and size cells of a [TradeRow]. *)
Record Row : Type := {
  symbol_cell : string;
  price_cell : string;
  size_cell : number
}.

Definition TradeRow (trade : TradeRecord) : Row :=
  {| symbol_cell := symbol trade;
     price_cell := formatPrice (price_i64 trade);
     size_cell := size_u32 trade |}.

Definition rows (trades : list TradeRecord) : list Row :=
  map TradeRow trades.

(** The [key] of the row of a trade at index [idx]. *)
Definition row_key (trade : TradeRecord) (idx : nat) : string :=
  Number_toString (ts_event_unix_ns trade) ++ "-" ++
  String_of_int (Z.of_nat idx).

(** What the component returns: the placeholder, or the table with its
    record count and its keyed rows. *)
Inductive View : Type :=
| no_trades (title : string)
| table (title : string) (records : nat) (body : list (string * Row)).

Definition TradeTape (trades : list TradeRecord) (title : option string)
  : View :=
  let title := match title with Some t => t | None => "Trades" end in
  if (List.length trades =? 0)%nat then no_trades title
  else table title (List.length trades)
         (map (fun '(idx, trade) => (row_key trade idx, TradeRow trade))
              (indexed trades)).

End TradeTape.

(* ------------------------------------------------------------------ *)
(** ** [components/HistoricalChart.tsx] *)

Module HistoricalChart.
Import JS Api.

(** An element of the candlestick series. *)
Record Candle : Type := {
  time : number;
  open : number;
  high : number;
  low : number;
  close : number
}.

Definition toCandle (bar : OhlcvRecord) : Candle :=
  {| time := (bar_ts_event_unix_ns bar / 1e9)%float;
     open := formatPriceNumber (open_i64 bar);
     high := formatPriceNumber (high_i64 bar);
     low := formatPriceNumber (low_i64 bar);
     close := formatPriceNumber (close_i64 bar) |}.

Definition by_time (a b : Candle) : number := (time a - time b)%float.

(** [data.map(...)] followed by the in-place [sort]. *)
Definition chartData (data : list OhlcvRecord) : list Candle :=
  sort by_time (map toCandle data).

(** The effect: what it passes to [candlestickSeries.setData], [None]
    when it returns before creating the chart ([container] tells whether
    [containerRef.current] is set). *)
Definition setData (container : bool) (data : list OhlcvRecord)
  : option (list Candle) :=
  if (negb container || (List.length data =? 0)%nat)%bool then None
  else Some (chartData data).

(** Three one-minute bars, out of order. *)
Definition sample_bars : list OhlcvRecord :=
  map (fun t : number =>
         {| bar_ts_event_unix_ns := t; bar_symbol := "ES.FUT";
            open_i64 := 4512250000000%float;
            high_i64 := 4513000000000%float;
            low_i64 := 4511750000000%float;
            close_i64 := 4512500000000%float;
            volume_u64 := 10%float |})
      [1704067320000000000; 1704067200000000000; 1704067260000000000]%float.

(** Four bars of two minutes, two bars for each minute, told apart by
    their closing prices and listed with the later minute first. *)
Definition tied_bars : list OhlcvRecord :=
  map (fun '(t, c) =>
         {| bar_ts_event_unix_ns := t; bar_symbol := "ES.FUT";
            open_i64 := 4512250000000%float;
            high_i64 := 4515000000000%float;
            low_i64 := 4511750000000%float;
            close_i64 := c;
            volume_u64 := 10%float |})
      [(1704067260000000000, 4512000000000);
       (1704067200000000000, 4513000000000);
       (1704067260000000000, 4514000000000);
       (1704067200000000000, 4515000000000)]%float.

End HistoricalChart.


(* ------------------------------------------------------------------ *)
(** ** [App.tsx]: fetching and the display area *)

Module AppPage.
Import JS Api App.

(** All the [useState] cells of [App]: the three of the historical query
    and the four the live handlers write. *)
Record Page : Type := {
  loading : bool;
  error : option string;
  historicalData : option HistoricalResponse;
  cells : App.State
}.

Definition initial : Page :=
  {| loading := false; error := None; historicalData := None;
     cells := App.initial |}.

(** A live handler applied to the page. *)
Definition live (f : App.State -> App.State) (pg : Page) : Page :=
  {| loading := loading pg; error := error pg;
     historicalData := historicalData pg; cells := f (cells pg) |}.

Section Fetch.

(** The [message] of the exceptions the platform throws; every exception
    of the model is an instance of [Error]. *)
Variable engine_message : exception -> string.

Definition message_of (e : exception) : string :=
  match e with
  | Error message => message
  | _ => engine_message e
  end.

(** [handleFetchHistorical] up to its [await]. *)
Definition fetch_started (pg : Page) : Page :=
  {| loading := true; error := None; historicalData := None;
     cells := cells pg |}.

(** [handleFetchHistorical] from the [await] on: the [try], the [catch]
    and the [finally].  [fetchHistorical] resolves to whatever
    [response.json()] gave, and [setHistoricalData] stores it unchecked;
    the page holds it at the type of the cell, so there is no page,
    [None], for a body that is neither falsy nor a
    [HistoricalResponse]. *)
Definition fetch_settled (outcome : completion json)
    (request : HistoricalRequest) (pg : Page) : option Page :=
  match outcome with
  | returns data =>
      option_map
        (fun cell =>
           {| loading := false; error := error pg;
              historicalData := cell;
              cells := {| isLiveConnected := isLiveConnected (cells pg);
                          liveTrades := liveTrades (cells pg);
                          currentSymbols := Api.symbols request;
                          currentSchema := Api.schema request |} |})
        (as_HistoricalResponse data)
  | throws e =>
      Some {| loading := false; error := Some (message_of e);
              historicalData := historicalData pg; cells := cells pg |}
  end.

(** [fetchHistorical] is the function of [api.ts] for the network of the
    moment, [Api.fetchHistorical fetch]. *)
Definition handleFetchHistorical
    (fetchHistorical : HistoricalRequest -> completion json)
    (request : HistoricalRequest) (pg : Page) : option Page :=
  fetch_settled (fetchHistorical request) request (fetch_started pg).

End Fetch.

(** *** The display area *)

Inductive Widget : Type :=
| show_error (message : string)
| show_loading
| show_TradeTape (trades : list TradeRecord) (title : string)
| show_HistoricalChart (data : list OhlcvRecord) (schema : Schema)
| show_empty.

Definition Schema_eqb (a b : Schema) : bool :=
  match a, b with
  | trades, trades | ohlcv_1s, ohlcv_1s | ohlcv_1m, ohlcv_1m => true
  | _, _ => false
  end.

(** [error] as a condition: [null] and the empty string are falsy. *)
Definition error_shown (pg : Page) : bool :=
  match error pg with
  | Some message => negb (String.eqb message "")
  | None => false
  end.

Definition showTradeTape (pg : Page) : bool :=
  Schema_eqb (currentSchema (cells pg)) trades.

Definition showChart (pg : Page) : bool :=
  (Schema_eqb (currentSchema (cells pg)) ohlcv_1s ||
   Schema_eqb (currentSchema (cells pg)) ohlcv_1m)%bool.

Definition historicalTrades (pg : Page) : list TradeRecord :=
  match historicalData pg with
  | Some (response_trades data) => data
  | _ => []
  end.

Definition historicalOhlcv (pg : Page) : list OhlcvRecord :=
  match historicalData pg with
  | Some (response_ohlcv_1s data) => data
  | Some (response_ohlcv_1m data) => data
  | _ => []
  end.

(** The children of the display section, in order. *)
Definition render (pg : Page) : list Widget :=
  (match error pg with
   | Some message =>
       if String.eqb message "" then [] else [show_error message]
   | None => []
   end ++
   (if loading pg then [show_loading] else []) ++
   (if (negb (loading pg) && negb (error_shown pg))%bool then
      (if showTradeTape pg then
         [show_TradeTape
            (if isLiveConnected (cells pg) then liveTrades (cells pg)
             else historicalTrades pg)
            (if isLiveConnected (cells pg) then "Live Trades"
             else "Historical Trades")]
       else []) ++
      (if (showChart pg &&
           (0 <? List.length (historicalOhlcv pg))%nat)%bool then
         [show_HistoricalChart (historicalOhlcv pg)
            (currentSchema (cells pg))]
       else []) ++
      (if (negb (isLiveConnected (cells pg)) &&
           match historicalData pg with None => true | Some _ => false end)%bool
       then [show_empty] else [])
    else []))%list.




Definition is_data_widget (w : Widget) : bool :=
  match w with
  | show_TradeTape _ _ | show_HistoricalChart _ _ => true
  | _ => false
  end.

End AppPage.

(* ================================================================== *)
(** * Properties *)

(* ------------------------------------------------------------------ *)
(** ** Binary64 arithmetic *)

Module NumberFacts.
Import Binary64.
Local Open Scope Z_scope.

(** *** Binary digits and shifts *)

Lemma digits2_pos_bounds (m : positive) :
  2 ^ (Zpos (digits2_pos m) - 1) <= Zpos m < 2 ^ Zpos (digits2_pos m).
Proof.
  induction m as [m IH | m IH |]; simpl digits2_pos.
  - rewrite Pos2Z.inj_succ.
    replace (Z.succ (Zpos (digits2_pos m)) - 1)
      with (Z.succ (Zpos (digits2_pos m) - 1)) by lia.
    rewrite !Z.pow_succ_r by lia. lia.
  - rewrite Pos2Z.inj_succ.
    replace (Z.succ (Zpos (digits2_pos m)) - 1)
      with (Z.succ (Zpos (digits2_pos m) - 1)) by lia.
    rewrite !Z.pow_succ_r by lia. lia.
  - simpl. lia.
Qed.

Lemma iter_xO_mul (m d : positive) :
  Zpos (Pos.iter xO m d) = Zpos m * 2 ^ Zpos d.
Proof.
  change (Pos.iter xO m d) with (shift_pos d m).
  rewrite shift_pos_correct, Z.pow_pos_fold.
  apply Z.mul_comm.
Qed.

Lemma shr_1_half (r : shr_record) :
  0 <= shr_m r -> shr_m (shr_1 r) = shr_m r / 2.
Proof.
  destruct r as [m rb sb]. cbn [shr_m]. intros Hm.
  destruct m as [|[p|p|]|p]; cbn [shr_1 shr_m]; try lia; try reflexivity.
  - apply Z.div_unique with 1; lia.
  - apply Z.div_unique with 0; lia.
Qed.

Lemma pow2_xO (p : positive) : 2 ^ Zpos p~0 = 2 ^ Zpos p * 2 ^ Zpos p.
Proof.
  replace (Zpos p~0) with (Zpos p + Zpos p) by lia.
  apply Z.pow_add_r; lia.
Qed.

Lemma pow2_xI (p : positive) : 2 ^ Zpos p~1 = 2 * (2 ^ Zpos p * 2 ^ Zpos p).
Proof.
  replace (Zpos p~1) with (1 + (Zpos p + Zpos p)) by lia.
  rewrite Z.pow_add_r, Z.pow_add_r by lia. reflexivity.
Qed.

Lemma iter_shr_1 (p : positive) (r : shr_record) :
  0 <= shr_m r -> shr_m (iter_pos shr_1 p r) = shr_m r / 2 ^ Zpos p.
Proof.
  revert r. induction p as [p IH | p IH |]; intros r Hr; simpl iter_pos.
  - assert (H1 : 0 <= shr_m (shr_1 r))
      by (rewrite shr_1_half by lia; apply Z.div_pos; lia).
    assert (H2 : 0 <= shr_m (iter_pos shr_1 p (shr_1 r)))
      by (rewrite IH by lia; apply Z.div_pos; lia).
    rewrite IH, IH, shr_1_half by lia.
    rewrite !Z.div_div by lia. now rewrite pow2_xI.
  - assert (H2 : 0 <= shr_m (iter_pos shr_1 p r))
      by (rewrite IH by lia; apply Z.div_pos; lia).
    rewrite IH, IH by lia. rewrite Z.div_div by lia. now rewrite pow2_xO.
  - rewrite shr_1_half by lia. reflexivity.
Qed.

(** *** Rounding keeps the sign *)

Lemma fexp_emin (z : Z) : emin <= fexp prec emax z.
Proof. binary64. lia. Qed.

(** Shifting a positive mantissa to its canonical exponent leaves it
    positive, when the exponent is not below [emin]. *)
Lemma shr_fexp_positive (m e : Z) (l : location) :
  0 < m -> emin <= e ->
  0 < shr_m (fst (shr_fexp prec emax m e l)) /\
  emin <= snd (shr_fexp prec emax m e l).
Proof.
  intros Hm He. unfold shr_fexp, shr.
  assert (Hrec : shr_m (shr_record_of_loc m l) = m)
    by (destruct l as [|[]]; reflexivity).
  destruct (fexp prec emax (Zdigits2 m + e) - e) as [|n|n] eqn:En;
    cbn [fst snd]; rewrite ?Hrec; try (split; lia).
  rewrite iter_shr_1 by lia. rewrite Hrec. split; [|lia].
  destruct m as [|p|p]; try lia. simpl Zdigits2 in En.
  pose proof (digits2_pos_bounds p) as [Hlo _].
  assert (Hn : Zpos n <= Zpos (digits2_pos p) - 1).
  { binary64. lia. }
  apply Z.div_str_pos. split; [lia|].
  apply Z.le_trans with (2 ^ (Zpos (digits2_pos p) - 1)); [|exact Hlo].
  apply Z.pow_le_mono_r; lia.
Qed.

Lemma shr_fexp_nonneg (m e : Z) (l : location) :
  0 <= m -> 0 <= shr_m (fst (shr_fexp prec emax m e l)).
Proof.
  intros Hm. unfold shr_fexp, shr.
  assert (Hrec : shr_m (shr_record_of_loc m l) = m)
    by (destruct l as [|[]]; reflexivity).
  destruct (fexp prec emax (Zdigits2 m + e) - e) as [|n|n];
    cbn [fst]; rewrite ?Hrec; try lia.
  rewrite iter_shr_1 by lia. rewrite Hrec. apply Z.div_pos; lia.
Qed.

Lemma round_nearest_even_ge (m : Z) (l : location) :
  m <= round_nearest_even m l.
Proof. destruct l as [|[]]; simpl; try lia. destruct (Z.even m); lia. Qed.

Lemma binary_round_aux_signed (s : bool) (m e : Z) (l : location) :
  0 < m -> emin <= e ->
  signed_nonzero s (binary_round_aux prec emax s m e l).
Proof.
  intros Hm He. unfold binary_round_aux.
  pose proof (shr_fexp_positive m e l Hm He) as [H1 H1e].
  destruct (shr_fexp prec emax m e l) as [mrs' e']. cbn [fst snd] in H1, H1e.
  pose proof (round_nearest_even_ge (shr_m mrs') (loc_of_shr_record mrs')) as Hr.
  set (m2 := round_nearest_even (shr_m mrs') (loc_of_shr_record mrs')) in *.
  pose proof (shr_fexp_positive m2 e' loc_Exact ltac:(lia) H1e) as [H2 _].
  destruct (shr_fexp prec emax m2 e' loc_Exact) as [mrs'' e''].
  cbn [fst] in H2.
  destruct (shr_m mrs'') as [|p|p]; try lia.
  destruct (e'' <=? emax - prec); reflexivity.
Qed.

Lemma binary_round_aux_not_nan (s : bool) (m e : Z) (l : location) :
  0 <= m -> binary_round_aux prec emax s m e l <> S754_nan.
Proof.
  intros Hm. unfold binary_round_aux.
  pose proof (shr_fexp_nonneg m e l Hm) as H1.
  destruct (shr_fexp prec emax m e l) as [mrs' e']. cbn [fst] in H1.
  pose proof (round_nearest_even_ge (shr_m mrs') (loc_of_shr_record mrs')) as Hr.
  set (m2 := round_nearest_even (shr_m mrs') (loc_of_shr_record mrs')) in *.
  pose proof (shr_fexp_nonneg m2 e' loc_Exact ltac:(lia)) as H2.
  destruct (shr_fexp prec emax m2 e' loc_Exact) as [mrs'' e''].
  cbn [fst] in H2.
  destruct (shr_m mrs'') as [|p|p]; try lia; try discriminate.
  destruct (e'' <=? emax - prec); discriminate.
Qed.

Lemma binary_round_signed (s : bool) (m : positive) (e : Z) :
  emin <= e -> signed_nonzero s (binary_round prec emax s m e).
Proof.
  intros He. unfold binary_round, shl_align.
  set (t := fexp prec emax (Zpos (digits2_pos m) + e)).
  pose proof (fexp_emin (Zpos (digits2_pos m) + e)) as Ht. fold t in Ht.
  destruct (t - e) as [|d|d] eqn:Ed;
    apply binary_round_aux_signed; cbn [fst snd]; lia.
Qed.

Lemma binary_normalize_sign (z e : Z) :
  emin <= e ->
  match z with
  | Z0 => binary_normalize prec emax z e false = S754_zero false
  | Zpos _ => signed_nonzero false (binary_normalize prec emax z e false)
  | Zneg _ => signed_nonzero true (binary_normalize prec emax z e false)
  end.
Proof.
  intros He. destruct z; simpl; [reflexivity| |]; now apply binary_round_signed.
Qed.

(** *** Valid operands *)

Lemma bounded_facts (m : positive) (e : Z) :
  bounded prec emax m e = true ->
  emin <= e /\ Zpos (digits2_pos m) <= prec /\
  (emin < e -> Zpos (digits2_pos m) = prec).
Proof.
  unfold bounded, canonical_mantissa. intros H.
  apply andb_true_iff in H as [H _]. apply Z.eqb_eq in H.
  binary64. lia.
Qed.

Lemma shl_align_aligned (m : positive) (e ez : Z) :
  ez <= e -> Zpos (fst (shl_align m e ez)) = Zpos m * 2 ^ (e - ez).
Proof.
  intros H. unfold shl_align.
  destruct (ez - e) as [|d|d] eqn:E; cbn [fst].
  - replace (e - ez) with 0 by lia. lia.
  - lia.
  - rewrite iter_xO_mul. f_equal. f_equal. lia.
Qed.

(** Among valid operands the larger exponent has the larger value. *)
Lemma larger_exponent (m1 m2 : positive) (e1 e2 : Z) :
  bounded prec emax m1 e1 = true ->
  bounded prec emax m2 e2 = true ->
  e1 < e2 ->
  Zpos m1 < Zpos m2 * 2 ^ (e2 - e1).
Proof.
  intros H1 H2 Hlt.
  apply bounded_facts in H1 as (He1 & Hd1 & _).
  apply bounded_facts in H2 as (He2 & _ & Hd2).
  specialize (Hd2 ltac:(lia)).
  pose proof (digits2_pos_bounds m1) as [_ Hhi].
  pose proof (digits2_pos_bounds m2) as [Hlo _].
  rewrite Hd2 in Hlo.
  assert (Hp : 2 ^ Zpos (digits2_pos m1) <= 2 ^ prec)
    by (apply Z.pow_le_mono_r; lia).
  assert (Hq : 2 ^ prec = 2 * 2 ^ (prec - 1))
    by (rewrite <- Z.pow_succ_r by (binary64; lia); f_equal; lia).
  assert (Hs : 2 ^ 1 <= 2 ^ (e2 - e1)) by (apply Z.pow_le_mono_r; lia).
  change (2 ^ 1) with 2 in Hs. nia.
Qed.

Lemma compare_aligned (m1 m2 : positive) (e1 e2 : Z) :
  bounded prec emax m1 e1 = true ->
  bounded prec emax m2 e2 = true ->
  match e1 ?= e2 with
  | Lt => Lt
  | Gt => Gt
  | Eq => Pos.compare_cont Eq m1 m2
  end =
  (Zpos m1 * 2 ^ (e1 - Z.min e1 e2) ?= Zpos m2 * 2 ^ (e2 - Z.min e1 e2)).
Proof.
  intros H1 H2. destruct (Z.compare_spec e1 e2) as [He | He | He].
  - subst e2. rewrite Z.min_id, Z.sub_diag, !Z.mul_1_r. reflexivity.
  - rewrite Z.min_l, Z.sub_diag, Z.mul_1_r by lia. symmetry.
    apply Z.compare_lt_iff. now apply larger_exponent.
  - rewrite Z.min_r, Z.sub_diag, Z.mul_1_r by lia. symmetry.
    apply Z.compare_gt_iff. now apply larger_exponent.
Qed.

Lemma SFcompare_finite (s1 s2 : bool) (m1 m2 : positive) (e1 e2 : Z) :
  bounded prec emax m1 e1 = true ->
  bounded prec emax m2 e2 = true ->
  SFcompare (S754_finite s1 m1 e1) (S754_finite s2 m2 e2) =
  Some (aligned s1 m1 e1 (Z.min e1 e2) ?= aligned s2 m2 e2 (Z.min e1 e2)).
Proof.
  intros H1 H2. unfold aligned. simpl SFcompare.
  pose proof (compare_aligned m1 m2 e1 e2 H1 H2) as Hc.
  assert (P1 : 0 < Zpos m1 * 2 ^ (e1 - Z.min e1 e2))
    by (apply Z.mul_pos_pos; [lia | apply Z.pow_pos_nonneg; lia]).
  assert (P2 : 0 < Zpos m2 * 2 ^ (e2 - Z.min e1 e2))
    by (apply Z.mul_pos_pos; [lia | apply Z.pow_pos_nonneg; lia]).
  set (a := Zpos m1 * 2 ^ (e1 - Z.min e1 e2)) in *.
  set (b := Zpos m2 * 2 ^ (e2 - Z.min e1 e2)) in *.
  destruct s1, s2; cbn [cond_Zopp].
  - f_equal. rewrite Z.compare_opp, (Z.compare_antisym a b), <- Hc.
    destruct (e1 ?= e2); reflexivity.
  - f_equal. symmetry. apply Z.compare_lt_iff. lia.
  - f_equal. symmetry. apply Z.compare_gt_iff. lia.
  - f_equal. rewrite <- Hc. reflexivity.
Qed.

(** *** Subtraction and comparison agree *)

Lemma signed_nonzero_positive (s : bool) (x : spec_float) :
  signed_nonzero s x -> SFpositive x = negb s.
Proof.
  destruct x as [s'|s'| |s' m e]; simpl; try contradiction;
    intros ->; now destruct s.
Qed.

Lemma SFsub_positive (x y : spec_float) :
  valid_binary x = true -> valid_binary y = true ->
  x <> S754_nan -> y <> S754_nan ->
  SFpositive (SF64sub x y) = SFltb y x.
Proof.
  intros Vx Vy Nx Ny.
  destruct x as [sx|sx| |sx mx ex], y as [sy|sy| |sy my ey];
    try congruence;
    try (destruct sx, sy; reflexivity);
    try (destruct sx; reflexivity);
    try (destruct sy; reflexivity).
  simpl in Vx, Vy. unfold SFltb. rewrite (SFcompare_finite _ _ _ _ _ _ Vy Vx).
  unfold SF64sub, SFsub.
  pose proof (bounded_facts _ _ Vx) as (Hex & _).
  pose proof (bounded_facts _ _ Vy) as (Hey & _).
  rewrite !shl_align_aligned by lia.
  fold (aligned sx mx ex (Z.min ex ey)). fold (aligned sy my ey (Z.min ex ey)).
  rewrite (Z.min_comm ey ex).
  set (a := aligned sx mx ex (Z.min ex ey)).
  set (b := aligned sy my ey (Z.min ex ey)).
  pose proof (binary_normalize_sign (a - b) (Z.min ex ey) ltac:(lia)) as Hn.
  destruct (a - b) as [|d|d] eqn:Ed.
  - rewrite Hn. replace b with a by lia. now rewrite Z.compare_refl.
  - rewrite (signed_nonzero_positive _ _ Hn).
    assert (Hlt : b < a) by lia. apply Z.compare_lt_iff in Hlt.
    now rewrite Hlt.
  - rewrite (signed_nonzero_positive _ _ Hn).
    assert (Hgt : a < b) by lia. apply Z.compare_gt_iff in Hgt.
    now rewrite Hgt.
Qed.

Lemma SFcompare_antisym (x y : spec_float) :
  SFcompare y x = option_map CompOpp (SFcompare x y).
Proof.
  destruct x as [sx|sx| |sx mx ex], y as [sy|sy| |sy my ey];
    try reflexivity;
    try (destruct sx, sy; reflexivity);
    try (destruct sx; reflexivity);
    try (destruct sy; reflexivity).
  simpl. destruct sx, sy; try reflexivity; f_equal;
    rewrite (Z.compare_antisym ey ex);
    destruct (ey ?= ex); simpl; try reflexivity;
    rewrite (Pos.compare_cont_antisym _ _ Eq); simpl;
    try reflexivity; now rewrite CompOpp_involutive.
Qed.

(** *** Numbers on the integer line *)

Lemma infinity_ord_positive : 0 < 2 ^ (emax - emin).
Proof. apply Z.pow_pos_nonneg; binary64; lia. Qed.

Lemma finite_ord_bounds (m : positive) (e : Z) :
  bounded prec emax m e = true ->
  0 < Zpos m * 2 ^ (e - emin) < 2 ^ (emax - emin).
Proof.
  intros H. pose proof (bounded_facts _ _ H) as (He & Hd & _).
  unfold bounded in H. apply andb_true_iff in H as [_ Hmax].
  apply Z.leb_le in Hmax.
  pose proof (digits2_pos_bounds m) as [_ Hhi].
  assert (Hp : 2 ^ Zpos (digits2_pos m) <= 2 ^ prec)
    by (apply Z.pow_le_mono_r; lia).
  assert (P : 0 < 2 ^ (e - emin)) by (apply Z.pow_pos_nonneg; lia).
  split; [lia|].
  apply Z.lt_le_trans with (2 ^ prec * 2 ^ (e - emin)); [nia|].
  rewrite <- Z.pow_add_r by (binary64; lia).
  apply Z.pow_le_mono_r; lia.
Qed.

Lemma aligned_ord (s : bool) (m : positive) (e ez : Z) :
  emin <= ez -> ez <= e ->
  SFord (S754_finite s m e) = aligned s m e ez * 2 ^ (ez - emin).
Proof.
  intros H1 H2. unfold aligned. cbn [SFord].
  replace (e - emin) with ((e - ez) + (ez - emin)) by lia.
  rewrite Z.pow_add_r by lia. destruct s; cbn [cond_Zopp]; lia.
Qed.

Lemma SFcompare_ord (x y : spec_float) :
  valid_binary x = true -> valid_binary y = true ->
  x <> S754_nan -> y <> S754_nan ->
  SFcompare x y = Some (SFord x ?= SFord y).
Proof.
  intros Vx Vy Nx Ny.
  destruct x as [sx|sx| |sx mx ex], y as [sy|sy| |sy my ey];
    try congruence; simpl in Vx, Vy.
  - reflexivity.
  - pose proof infinity_ord_positive as P.
    cbn [SFcompare SFord]. f_equal. symmetry.
    destruct sy; cbn [cond_Zopp];
      [apply Z.compare_gt_iff | apply Z.compare_lt_iff]; lia.
  - pose proof (finite_ord_bounds _ _ Vy) as [P _].
    cbn [SFcompare SFord]. f_equal. symmetry.
    destruct sy; cbn [cond_Zopp];
      [apply Z.compare_gt_iff | apply Z.compare_lt_iff]; lia.
  - pose proof infinity_ord_positive as P.
    cbn [SFcompare SFord]. f_equal. symmetry.
    destruct sx; cbn [cond_Zopp];
      [apply Z.compare_lt_iff | apply Z.compare_gt_iff]; lia.
  - pose proof infinity_ord_positive as P.
    cbn [SFcompare SFord]. f_equal. symmetry.
    destruct sx, sy; cbn [cond_Zopp];
      solve [apply Z.compare_eq_iff; lia | apply Z.compare_lt_iff; lia
            | apply Z.compare_gt_iff; lia].
  - pose proof (finite_ord_bounds _ _ Vy) as [P Q].
    cbn [SFcompare SFord]. f_equal. symmetry.
    destruct sx, sy; cbn [cond_Zopp];
      solve [apply Z.compare_lt_iff; lia | apply Z.compare_gt_iff; lia].
  - pose proof (finite_ord_bounds _ _ Vx) as [P _].
    cbn [SFcompare SFord]. f_equal. symmetry.
    destruct sx; cbn [cond_Zopp];
      [apply Z.compare_lt_iff | apply Z.compare_gt_iff]; lia.
  - pose proof (finite_ord_bounds _ _ Vx) as [P Q].
    cbn [SFcompare SFord]. f_equal. symmetry.
    destruct sx, sy; cbn [cond_Zopp];
      solve [apply Z.compare_lt_iff; lia | apply Z.compare_gt_iff; lia].
  - rewrite (SFcompare_finite _ _ _ _ _ _ Vx Vy).
    pose proof (bounded_facts _ _ Vx) as (Hex & _).
    pose proof (bounded_facts _ _ Vy) as (Hey & _).
    rewrite (aligned_ord sx mx ex (Z.min ex ey)) by lia.
    rewrite (aligned_ord sy my ey (Z.min ex ey)) by lia.
    f_equal. apply Zmult_compare_compat_r.
    apply Z.lt_gt, Z.pow_pos_nonneg; lia.
Qed.

(** *** Primitive floats *)

Lemma is_nan_spec (x : float) :
  is_nan x = false <-> Prim2SF x <> S754_nan.
Proof.
  unfold is_nan. rewrite eqb_spec. unfold SFeqb.
  pose proof (Prim2SF_valid x) as V.
  destruct (Prim2SF x) as [s|s| |s m e] eqn:E.
  - simpl. split; [discriminate | reflexivity].
  - destruct s; simpl; (split; [discriminate | reflexivity]).
  - simpl. split; [discriminate | congruence].
  - rewrite (SFcompare_ord _ _ V V) by discriminate.
    rewrite Z.compare_refl. simpl. split; [discriminate | reflexivity].
Qed.

Lemma leb_ord (x y : float) :
  is_nan x = false -> is_nan y = false ->
  (x <=? y)%float = (ord x <=? ord y).
Proof.
  intros Nx Ny. apply is_nan_spec in Nx, Ny.
  rewrite leb_spec. unfold SFleb, ord.
  rewrite (SFcompare_ord _ _ (Prim2SF_valid x) (Prim2SF_valid y) Nx Ny).
  unfold Z.leb. destruct (SFord (Prim2SF x) ?= SFord (Prim2SF y)); reflexivity.
Qed.

Lemma ltb_ord (x y : float) :
  is_nan x = false -> is_nan y = false ->
  (x <? y)%float = (ord x <? ord y).
Proof.
  intros Nx Ny. apply is_nan_spec in Nx, Ny.
  rewrite ltb_spec. unfold SFltb, ord.
  rewrite (SFcompare_ord _ _ (Prim2SF_valid x) (Prim2SF_valid y) Nx Ny).
  unfold Z.ltb. destruct (SFord (Prim2SF x) ?= SFord (Prim2SF y)); reflexivity.
Qed.

(** The sign of a difference tells which operand is larger. *)
Lemma sub_positive (x y : float) :
  is_nan x = false -> is_nan y = false ->
  (0 <? x - y)%float = (ord y <? ord x).
Proof.
  intros Nx Ny. rewrite <- (ltb_ord y x Ny Nx).
  apply is_nan_spec in Nx, Ny.
  rewrite !ltb_spec, sub_spec.
  change (Prim2SF 0) with (S754_zero false).
  apply (SFsub_positive _ _ (Prim2SF_valid x) (Prim2SF_valid y) Nx Ny).
Qed.

(** Dividing a number by a positive finite number gives a number. *)
Lemma div_not_nan (x y : float) (m : positive) (e : Z) :
  Prim2SF y = S754_finite false m e ->
  is_nan x = false -> is_nan (x / y)%float = false.
Proof.
  intros Hy Nx. apply is_nan_spec in Nx. apply is_nan_spec.
  rewrite div_spec, Hy. unfold SF64div, SFdiv.
  destruct (Prim2SF x) as [s|s| |s mx ex]; try discriminate; [congruence|].
  unfold SFdiv_core_binary.
  set (e' := Z.min _ _).
  set (m' := match ex - e - e' with
             | 0 => Zpos mx | Zpos _ => Z.shiftl (Zpos mx) (ex - e - e')
             | Zneg _ => 0 end).
  assert (Hm' : 0 <= m').
  { unfold m'. destruct (ex - e - e'); try lia. apply Z.shiftl_nonneg. lia. }
  pose proof (Z_div_mod m' (Zpos m) ltac:(lia)) as Hd.
  destruct (Z.div_eucl m' (Zpos m)) as [q r].
  apply binary_round_aux_not_nan. nia.
Qed.

(** *** Integers among the numbers *)

Lemma digits2_pos_iter_xO (m k : positive) :
  Zpos (digits2_pos (Pos.iter xO m k)) = Zpos (digits2_pos m) + Zpos k.
Proof.
  induction k as [|k IH] using Pos.peano_ind.
  - cbn [Pos.iter digits2_pos]. lia.
  - rewrite Pos.iter_succ. cbn [digits2_pos]. lia.
Qed.

(** A mantissa that is already in canonical form is not rounded. *)
Lemma binary_round_aux_exact (s : bool) (m : positive) (e : Z) :
  fexp prec emax (Zpos (digits2_pos m) + e) = e -> e <= emax - prec ->
  binary_round_aux prec emax s (Zpos m) e loc_Exact = S754_finite s m e.
Proof.
  intros Hf He. unfold binary_round_aux, shr_fexp. cbn [Zdigits2].
  rewrite Hf, Z.sub_diag.
  cbn [shr shr_record_of_loc shr_m loc_of_shr_record round_nearest_even
       Zdigits2].
  rewrite Hf, Z.sub_diag. cbn [shr shr_m].
  apply Z.leb_le in He. rewrite He. reflexivity.
Qed.

(** An integer below [2^53] in magnitude is a number: rounding it
    changes nothing. *)
Lemma binary_round_exact (s : bool) (p : positive) :
  Zpos p < 2 ^ 53 ->
  exists (m : positive) (e : Z),
    binary_round prec emax s p 0 = S754_finite s m e /\
    bounded prec emax m e = true /\ e <= 0 /\
    Zpos m = Zpos p * 2 ^ (- e).
Proof.
  intros Hp. pose proof (digits2_pos_bounds p) as [Hd _].
  assert (Hd53 : Zpos (digits2_pos p) <= 53).
  { destruct (Z_le_gt_dec (Zpos (digits2_pos p)) 53) as [H|H]; [exact H|].
    assert (2 ^ 53 <= 2 ^ (Zpos (digits2_pos p) - 1))
      by (apply Z.pow_le_mono_r; lia). lia. }
  unfold binary_round, shl_align.
  assert (Ht : fexp prec emax (Zpos (digits2_pos p) + 0)
               = Zpos (digits2_pos p) - 53) by (binary64; lia).
  rewrite Ht.
  destruct (Zpos (digits2_pos p) - 53 - 0) as [|k|k] eqn:Ek; try lia.
  - exists p, 0. split; [|split; [|split; [lia|cbn; lia]]].
    + apply binary_round_aux_exact; [|binary64; lia].
      rewrite Ht. lia.
    + unfold bounded, canonical_mantissa. rewrite Ht.
      apply andb_true_iff. split; [apply Z.eqb_eq; lia|].
      apply Z.leb_le. binary64. lia.
  - assert (Hf : fexp prec emax
                   (Zpos (digits2_pos (Pos.iter xO p k)) +
                    (Zpos (digits2_pos p) - 53))
                 = Zpos (digits2_pos p) - 53).
    { rewrite digits2_pos_iter_xO. binary64. lia. }
    exists (Pos.iter xO p k), (Zpos (digits2_pos p) - 53).
    split; [|split; [|split; [lia|]]].
    + apply binary_round_aux_exact; [exact Hf | binary64; lia].
    + unfold bounded, canonical_mantissa. rewrite Hf.
      apply andb_true_iff. split; [apply Z.eqb_eq; lia|].
      apply Z.leb_le. binary64. lia.
    + rewrite iter_xO_mul. f_equal. f_equal. lia.
Qed.

Lemma integer_value_exact (s : bool) (p m : positive) (e : Z) :
  bounded prec emax m e = true -> e <= 0 ->
  Zpos m = Zpos p * 2 ^ (- e) ->
  JS.integer_value (SF2Prim (S754_finite s m e)) =
  Some (cond_Zopp s (Zpos p)).
Proof.
  intros Hb He Hm. unfold JS.integer_value.
  rewrite (Prim2SF_SF2Prim (S754_finite s m e) Hb).
  destruct e as [|k|k]; [| lia |].
  - cbn in Hm. do 2 f_equal. lia.
  - change (- Zneg k) with (Zpos k) in Hm.
    rewrite Hm, Z.mod_mul by lia. cbn [Z.eqb].
    rewrite Z.div_mul by lia. reflexivity.
Qed.

Lemma number_of_Z_exact (z : Z) :
  Z.abs z < 2 ^ 53 -> JS.integer_value (JS.number_of_Z z) = Some z.
Proof.
  intros Hz. unfold JS.number_of_Z.
  destruct z as [|p|p]; [reflexivity| |]; cbn [binary_normalize].
  - destruct (binary_round_exact false p Hz) as (m & e & -> & Hb & He & Hm).
    apply (integer_value_exact false p m e Hb He Hm).
  - destruct (binary_round_exact true p Hz) as (m & e & -> & Hb & He & Hm).
    apply (integer_value_exact true p m e Hb He Hm).
Qed.

(** The place on the line of a number that is an integer. *)
Lemma integer_value_ord (x : float) (n : Z) :
  JS.integer_value x = Some n ->
  is_nan x = false /\ ord x = n * 2 ^ (- emin).
Proof.
  unfold JS.integer_value, ord. intros H.
  pose proof (Prim2SF_valid x) as V.
  split; [apply is_nan_spec; intros E; rewrite E in H; discriminate|].
  destruct (Prim2SF x) as [s|s| |s m e]; try discriminate.
  - injection H as <-. reflexivity.
  - cbn [valid_binary] in V. apply bounded_facts in V as (He & _).
    cbn [SFord]. destruct e as [|k|k].
    + apply (f_equal (fun o => match o with Some v => v | None => 0 end))
        in H. cbv beta iota in H. subst n.
      destruct s; cbn [cond_Zopp]; binary64; lia.
    + apply (f_equal (fun o => match o with Some v => v | None => 0 end))
        in H. cbv beta iota in H. subst n.
      replace (Zpos k - emin) with (Zpos k + - emin) by lia.
      rewrite Z.pow_add_r by (binary64; lia).
      destruct s; cbn [cond_Zopp]; lia.
    + destruct (Z.eqb_spec (Zpos m mod 2 ^ Zpos k) 0) as [Hmod|];
        [|discriminate].
      apply (f_equal (fun o => match o with Some v => v | None => 0 end))
        in H. cbv beta iota in H. subst n.
      apply Z.div_exact in Hmod; [|lia].
      replace (2 ^ (- emin)) with (2 ^ Zpos k * 2 ^ (Zneg k - emin)).
      * set (q := Zpos m / 2 ^ Zpos k) in *.
        destruct s; cbn [cond_Zopp]; rewrite Hmod; lia.
      * rewrite <- Z.pow_add_r by lia. f_equal. lia.
Qed.

(** The float order of integers is the order of the integers. *)
Lemma integer_leb (x y : float) (a b : Z) :
  JS.integer_value x = Some a -> JS.integer_value y = Some b ->
  (x <=? y)%float = (a <=? b).
Proof.
  intros Hx Hy.
  apply integer_value_ord in Hx as [Nx Ox], Hy as [Ny Oy].
  rewrite (leb_ord _ _ Nx Ny), Ox, Oy.
  assert (0 < 2 ^ (- emin)) by (apply Z.pow_pos_nonneg; binary64; lia).
  destruct (Z.leb_spec a b), (Z.leb_spec (a * 2 ^ (- emin)) (b * 2 ^ (- emin)));
    try reflexivity; nia.
Qed.

End NumberFacts.

(* ------------------------------------------------------------------ *)
(** ** The live message handler *)

Module LiveStreamFacts.
Import Api LiveStream.

Lemma run_app (evs1 evs2 : list Event) (st : State) :
  run (evs1 ++ evs2) st =
  let '(st1, out1) := run evs1 st in
  let '(st2, out2) := run evs2 st1 in
  (st2, out1 ++ out2).
Proof.
  revert st; induction evs1 as [|ev evs1 IH]; intros st; simpl.
  - destruct (run evs2 st); reflexivity.
  - destruct (step ev st) as [st1 out1]. rewrite IH.
    destruct (run evs1 st1) as [st2 out2].
    destruct (run evs2 st2) as [st3 out3].
    now rewrite app_assoc.
Qed.

(** The handler reads nothing of the state: two states give the same
    callbacks, and the next status and socket do not depend on the
    current status. *)
Lemma handleMessage_effects_state_free (msg : LiveMessage) (st st' : State) :
  snd (handleMessage msg st) = snd (handleMessage msg st').
Proof. destruct msg; reflexivity. Qed.

Lemma step_keeps_socket (ev : Event) (st : State) :
  wsRef (fst (step ev st)) = wsRef st.
Proof. destruct ev as [[]| |]; reflexivity. Qed.

Lemma run_keeps_socket (evs : list Event) (st : State) :
  wsRef (fst (run evs st)) = wsRef st.
Proof.
  revert st; induction evs as [|ev evs IH]; intros st; simpl; [reflexivity|].
  pose proof (step_keeps_socket ev st) as Hs.
  destruct (step ev st) as [st1 out1]; simpl in Hs.
  specialize (IH st1). destruct (run evs st1) as [st2 out2]; simpl in *.
  congruence.
Qed.

(** Only a [connected] message writes ['connected']. *)
Lemma step_connected (ev : Event) (st : State) :
  status (fst (step ev st)) = connected ->
  is_connected_msg ev = true \/ status st = connected.
Proof.
  destruct ev as [[]| |]; simpl; intros H; auto; discriminate.
Qed.

Lemma run_connected (evs : list Event) (st : State) :
  status (fst (run evs st)) = connected ->
  existsb is_connected_msg evs = true \/ status st = connected.
Proof.
  revert st; induction evs as [|ev evs IH]; intros st; simpl; auto.
  pose proof (step_connected ev st) as Hs.
  destruct (step ev st) as [st1 out1]; simpl in Hs.
  specialize (IH st1). destruct (run evs st1) as [st2 out2]; simpl in *.
  intros H. destruct (IH H) as [Hex | Hst].
  - left. rewrite Hex. apply orb_true_r.
  - destruct (Hs Hst) as [Hc | Hc]; auto. left. now rewrite Hc.
Qed.

Lemma data_step_status (ev : Event) (st : State) :
  is_data_msg ev = true -> status (fst (step ev st)) = status st.
Proof. destruct ev as [[]| |]; simpl; intros H; try discriminate; reflexivity. Qed.

Lemma data_run_status (evs : list Event) (st : State) :
  forallb is_data_msg evs = true -> status (fst (run evs st)) = status st.
Proof.
  revert st; induction evs as [|ev evs IH]; intros st; simpl; [reflexivity|].
  intros H. apply andb_true_iff in H as [Hev Hrest].
  pose proof (data_step_status ev st Hev) as Hs.
  destruct (step ev st) as [st1 out1]; simpl in Hs.
  specialize (IH st1 Hrest). destruct (run evs st1) as [st2 out2]; simpl in *.
  congruence.
Qed.

(** The literal of an integer is read as the number nearest to it. *)
Lemma integer_literal_parsed (z : Z) :
  JS.JSON_parse (JS.integer_literal z) = JS.JNumber (JS.number_of_Z z).
Proof.
  unfold JS.integer_literal. cbn [JS.JSON_parse]. f_equal.
  unfold JS.number_of_literal.
  destruct z as [|p|p]; cbn [Z.abs Z.to_N Z.ltb Z.compare cond_Zopp];
    [reflexivity| |]; change (10 ^ 0)%Z with 1%Z;
    rewrite Z.mul_1_r; reflexivity.
Qed.

Lemma encode_trade_parsed (tick : PriceTick) :
  JS.JSON_parse (encode_trade tick) =
  JS.JObject
    [("size_u32", JS.JNumber (JS.number_of_Z (size tick)));
     ("price_i64", JS.JNumber (JS.number_of_Z (price tick)));
     ("symbol", JS.JString (tick_symbol tick));
     ("ts_event_unix_ns", JS.JNumber (JS.number_of_Z (event_time tick)));
     ("type", JS.JString "trade")].
Proof.
  unfold encode_trade. cbn [JS.JSON_parse map rev app].
  rewrite !integer_literal_parsed. reflexivity.
Qed.

(** The message read from the wire text of a tick. *)
Lemma onmessage_trade (tick : PriceTick) (st : State) :
  onmessage (Some (encode_trade tick)) st =
  Some (handleMessage
          (msg_trade (JS.number_of_Z (event_time tick)) (tick_symbol tick)
                     (JS.number_of_Z (price tick))
                     (JS.number_of_Z (size tick))) st).
Proof.
  unfold onmessage. cbv zeta. rewrite encode_trade_parsed. reflexivity.
Qed.

(** C1. A [trade] message makes the handler call [onTrade] exactly once,
    with a record whose [ts_event_unix_ns], [symbol], [price_i64] and
    [size_u32] are the fields of the parsed message, unchanged.  For the
    wire text of a tick, [JSON.parse] reads each integer as the binary64
    number nearest to it, so the record that reaches [onTrade] has the
    symbol of the tick and, for the time, the price and the size, the
    numbers nearest to the integers of the tick: the integer itself
    when its magnitude is below [2^53], as every size is. *)
Theorem trade_tick_decoded (tick : PriceTick) (st : State) :
  (forall (ts : number) (sym : string) (price size : number),
     snd (handleMessage (msg_trade ts sym price size) st) =
     [onTrade {| ts_event_unix_ns := ts; symbol := sym;
                 price_i64 := price; size_u32 := size |}]) /\
  exists r : TradeRecord,
    onmessage (Some (encode_trade tick)) st =
      Some (setMessageCount (fun prev => (prev + 1)%float) st,
            [onTrade r]) /\
    symbol r = tick_symbol tick /\
    ts_event_unix_ns r = JS.number_of_Z (event_time tick) /\
    price_i64 r = JS.number_of_Z (price tick) /\
    size_u32 r = JS.number_of_Z (size tick) /\
    ((Z.abs (event_time tick) < 2 ^ 53)%Z ->
       JS.integer_value (ts_event_unix_ns r) = Some (event_time tick)) /\
    ((Z.abs (price tick) < 2 ^ 53)%Z ->
       JS.integer_value (price_i64 r) = Some (price tick)) /\
    ((0 <= size tick < 2 ^ 32)%Z ->
       JS.integer_value (size_u32 r) = Some (size tick)).
Proof.
  split; [reflexivity|].
  eexists. split; [apply onmessage_trade|]. cbn [ts_event_unix_ns symbol
    price_i64 size_u32].
  repeat (split; [reflexivity|]).
  split; [|split]; intros H; apply NumberFacts.number_of_Z_exact; lia.
Qed.

Lemma trade_tick_decoded_witness :
  exists r : TradeRecord,
    onmessage (Some (encode_trade safe_tick)) (mount sample_props) =
      Some (setMessageCount (fun prev => (prev + 1)%float)
              (mount sample_props), [onTrade r]) /\
    symbol r = "ES.FUT" /\
    JS.integer_value (ts_event_unix_ns r) = Some 9007199254740991%Z /\
    JS.integer_value (price_i64 r) = Some 4512250000000%Z /\
    JS.integer_value (size_u32 r) = Some 3%Z.
Proof.
  destruct (trade_tick_decoded safe_tick (mount sample_props))
    as (_ & r & H & Hs & _ & _ & _ & Ht & Hp & Hz).
  exists r. split; [exact H|]. split; [exact Hs|].
  split; [apply Ht; cbn; lia|]. split; [apply Hp; cbn; lia|].
  apply Hz; cbn; lia.
Defined.

(** A time stamped to the nanosecond is above [2^53]: the record that
    reaches [onTrade] carries the nearest number, 21 nanoseconds
    earlier. *)
Lemma trade_tick_rounded :
  exists (r : TradeRecord) (st' : State),
    event_time sample_tick = 1704067200123456789%Z /\
    onmessage (Some (encode_trade sample_tick)) (mount sample_props) =
      Some (st', [onTrade r]) /\
    JS.integer_value (ts_event_unix_ns r) = Some 1704067200123456768%Z /\
    JS.integer_value (ts_event_unix_ns r) <> Some (event_time sample_tick) /\
    symbol r = tick_symbol sample_tick /\
    JS.integer_value (price_i64 r) = Some (price sample_tick) /\
    JS.integer_value (size_u32 r) = Some (size sample_tick).
Proof.
  eexists. eexists. split; [reflexivity|].
  split; [rewrite onmessage_trade; reflexivity|].
  cbn [ts_event_unix_ns symbol price_i64 size_u32].
  split; [vm_compute; reflexivity|].
  split; [vm_compute; discriminate|].
  split; [reflexivity|]. split; vm_compute; reflexivity.
Qed.

(** C3. Started by [mount] in ['connecting'], the status is ['connected']
    after a sequence of socket events only if a [connected] message is
    among them; a [trade] message never changes the status, and a run of
    data messages leaves the client in ['connecting']. *)
Theorem connected_only_after_ack (p : Props) (evs : list Event) :
  (status (fst (run evs (mount p))) = connected ->
     exists syms sch, In (ev_message (msg_connected syms sch)) evs) /\
  (forall st ts sym price size,
     status (fst (handleMessage (msg_trade ts sym price size) st)) =
     status st) /\
  (forallb is_data_msg evs = true ->
     status (fst (run evs (mount p))) = connecting).
Proof.
  split; [|split].
  - intros H. destruct (run_connected evs (mount p) H) as [Hex | Hst].
    + apply existsb_exists in Hex as [ev [Hin Hc]].
      destruct ev as [[]| |]; try discriminate. eauto.
    + discriminate.
  - reflexivity.
  - intros H. now rewrite data_run_status.
Qed.

Lemma run_effects_state_free (evs : list Event) (s1 s2 : State) :
  snd (run evs s1) = snd (run evs s2).
Proof.
  revert s1 s2; induction evs as [|ev evs IH]; intros s1 s2; simpl;
    [reflexivity|].
  assert (Hout : snd (step ev s1) = snd (step ev s2))
    by (destruct ev as [[]| |]; reflexivity).
  destruct (step ev s1) as [a1 o1], (step ev s2) as [a2 o2]; simpl in Hout.
  specialize (IH a1 a2).
  destruct (run evs a1), (run evs a2); simpl in *. congruence.
Qed.

Lemma run_count_congr (evs : list Event) (s1 s2 : State) :
  messageCount s1 = messageCount s2 ->
  messageCount (fst (run evs s1)) = messageCount (fst (run evs s2)).
Proof.
  revert s1 s2; induction evs as [|ev evs IH]; intros s1 s2 Hc; simpl;
    [exact Hc|].
  assert (Hm : messageCount (fst (step ev s1)) =
               messageCount (fst (step ev s2)))
    by (destruct ev as [[]| |]; simpl; congruence).
  destruct (step ev s1) as [a1 o1], (step ev s2) as [a2 o2]; simpl in Hm.
  specialize (IH a1 a2 Hm).
  destruct (run evs a1), (run evs a2); simpl in *. exact IH.
Qed.

(** Once an event that writes the status has been handled, the status
    no longer depends on where the run started. *)
Lemma run_status_congr (evs : list Event) (s1 s2 : State) :
  existsb writes_status evs = true ->
  status (fst (run evs s1)) = status (fst (run evs s2)).
Proof.
  revert s1 s2; induction evs as [|ev evs IH]; intros s1 s2 Hex;
    [discriminate|].
  simpl in Hex. simpl.
  destruct (writes_status ev) eqn:Hev; simpl in Hex.
  - assert (Hs : status (fst (step ev s1)) = status (fst (step ev s2)))
      by (destruct ev as [[]| |]; simpl in *; try discriminate; reflexivity).
    assert (Hm : forall a1 a2, status a1 = status a2 ->
               status (fst (run evs a1)) = status (fst (run evs a2))).
    { clear. induction evs as [|e evs IH]; intros a1 a2 H; simpl; [exact H|].
      assert (Hs : status (fst (step e a1)) = status (fst (step e a2)))
        by (destruct e as [[]| |]; simpl; congruence).
      destruct (step e a1) as [b1 ?], (step e a2) as [b2 ?]; simpl in Hs.
      specialize (IH b1 b2 Hs).
      destruct (run evs b1), (run evs b2); exact IH. }
    destruct (step ev s1) as [a1 o1], (step ev s2) as [a2 o2]; simpl in Hs.
    specialize (Hm a1 a2 Hs).
    destruct (run evs a1), (run evs a2); exact Hm.
  - destruct (step ev s1) as [a1 o1], (step ev s2) as [a2 o2].
    specialize (IH a1 a2 Hex).
    destruct (run evs a1), (run evs a2); exact IH.
Qed.

Lemma connected_only_after_ack_witness :
  exists syms sch,
    In (ev_message (msg_connected syms sch)) (firstn 2 sample_events).
Proof.
  apply (proj1 (connected_only_after_ack sample_props
                  (firstn 2 sample_events))).
  reflexivity.
Defined.

(** C4. An [error] message sets the status to ['error'] and nothing else:
    the socket reference and the message count are untouched, no
    [ws.close()] and no [onDisconnect] happens, and every later sequence
    of events produces the callbacks and the message count it would have
    produced without the error, with the socket still referenced; as soon
    as a later event writes the status ([connected], [error], a socket
    error), the status too is what it would have been. *)
Theorem error_message_keeps_stream (st : State) (message : string) :
  let st' := fst (handleMessage (msg_error message) st) in
  let out := snd (handleMessage (msg_error message) st) in
  status st' = error /\
  wsRef st' = wsRef st /\
  messageCount st' = messageCount st /\
  existsb is_close_effect out = false /\
  forall later : list Event,
    snd (run later st') = snd (run later st) /\
    messageCount (fst (run later st')) = messageCount (fst (run later st)) /\
    wsRef (fst (run later st')) = wsRef st /\
    (existsb writes_status later = true ->
       status (fst (run later st')) = status (fst (run later st))).
Proof.
  simpl. split; [reflexivity|]. split; [reflexivity|].
  split; [reflexivity|]. split; [reflexivity|].
  intros later. split; [apply run_effects_state_free|].
  split; [now apply run_count_congr|].
  split; [now rewrite run_keeps_socket|].
  apply run_status_congr.
Qed.

Lemma error_message_keeps_stream_witness :
  let st := fst (run (firstn 2 sample_events) (mount sample_props)) in
  let st' := fst (handleMessage (msg_error "backpressure: events dropped") st) in
  let later := [ev_message (sample_trade 1704067201000000000%float);
                ev_message (msg_connected ["ES.FUT"] "trades")] in
  status (fst (run later st')) = status (fst (run later st)).
Proof.
  intros st st' later.
  destruct (error_message_keeps_stream st "backpressure: events dropped")
    as (_ & _ & _ & _ & H).
  destruct (H later) as (_ & _ & _ & Hs). apply Hs. reflexivity.
Defined.

(** C9. An [ohlcv] message is dropped, whatever the props of the
    subscription and whatever came before: the handler returns the state
    (status, message count, socket) as it was and runs no callback, so a
    run that ends with an [ohlcv] message ends like the run without it. *)
Theorem ohlcv_message_ignored
    (ts : number) (sym : string) (o h l c v : number) :
  (forall st : State,
     handleMessage (msg_ohlcv ts sym o h l c v) st = (st, [])) /\
  (forall (p : Props) (evs : list Event),
     run (evs ++ [ev_message (msg_ohlcv ts sym o h l c v)]) (mount p) =
     run evs (mount p)).
Proof.
  split; [reflexivity|]. intros p evs. rewrite run_app.
  destruct (run evs (mount p)) as [st out]. simpl. now rewrite app_nil_r.
Qed.

End LiveStreamFacts.

(* ------------------------------------------------------------------ *)
(** ** The live trade buffer *)

Module AppFacts.
Import Api App.

Lemma firstn_firstn_cons {A : Type} (n : nat) (x : A) (l : list A) :
  firstn n (x :: firstn n l) = firstn n (x :: l).
Proof.
  destruct n as [|n]; [reflexivity|]. rewrite !firstn_cons. f_equal.
  rewrite firstn_firstn. f_equal. lia.
Qed.

Lemma receive_liveTrades (ts : list TradeRecord) (st : State) :
  liveTrades (receive ts st) =
  fold_left (fun acc t => slice0 100 (t :: acc)) ts (liveTrades st).
Proof.
  unfold receive. revert st.
  induction ts as [|t ts IH]; intros st; [reflexivity|].
  cbn [fold_left]. now rewrite IH.
Qed.

(** The buffer is the arrivals, newest first, in front of what it held
    before, cut to 100. *)
Lemma buffer_fold (ts prev : list TradeRecord) :
  fold_left (fun acc t => slice0 100 (t :: acc)) ts (slice0 100 prev) =
  slice0 100 (rev ts ++ prev).
Proof.
  revert prev. induction ts as [|t ts IH]; intros prev; [reflexivity|].
  cbn [fold_left rev].
  replace (slice0 100 (t :: slice0 100 prev)) with (slice0 100 (t :: prev))
    by (unfold slice0; now rewrite firstn_firstn_cons).
  rewrite IH. now rewrite <- app_assoc.
Qed.

(** C10. After each call of the live-trade handler the buffer has at most
    100 records and starts with the trade just received; after any
    sequence of trades since [handleLiveConnect] emptied it, the buffer
    is the sequence in reverse arrival order cut to its first 100. *)
Theorem live_buffer_newest_first_bounded :
  (forall trade st,
     (List.length (liveTrades (handleLiveTrade trade st)) <= 100)%nat /\
     hd_error (liveTrades (handleLiveTrade trade st)) = Some trade) /\
  (forall symbols schema st ts,
     liveTrades (receive ts (handleLiveConnect symbols schema st)) =
     firstn 100 (rev ts)).
Proof.
  split.
  - intros trade st. split; [|reflexivity].
    cbn [handleLiveTrade liveTrades]. unfold slice0.
    rewrite length_firstn. lia.
  - intros symbols schema st ts.
    rewrite receive_liveTrades. cbn [handleLiveConnect liveTrades].
    pose proof (buffer_fold ts []) as H. unfold slice0 in *.
    rewrite firstn_nil, app_nil_r in H. exact H.
Qed.

End AppFacts.

(* ------------------------------------------------------------------ *)
(** ** [fetchHistorical] *)

Module FetchFacts.
Import JS Api.

Lemma fetchHistorical_ok (fetch : HistoricalRequest -> completion Response)
    (request : HistoricalRequest) (response : Response) :
  fetch request = returns response ->
  ok response = true ->
  fetchHistorical fetch request = Response_json response.
Proof. intros Hf Hok. unfold fetchHistorical. rewrite Hf. simpl. now rewrite Hok. Qed.

Lemma fetchHistorical_not_ok
    (fetch : HistoricalRequest -> completion Response)
    (request : HistoricalRequest) (response : Response) :
  fetch request = returns response ->
  ok response = false ->
  fetchHistorical fetch request =
    (error <- Response_json response ;;
     message <- Get error "error" ;;
     throws (new_Error (or_value message (defined (JString fetch_failed))))).
Proof. intros Hf Hok. unfold fetchHistorical. rewrite Hf. simpl. now rewrite Hok. Qed.

Lemma fetchHistorical_not_ok_throws
    (fetch : HistoricalRequest -> completion Response)
    (request : HistoricalRequest) (response : Response) :
  fetch request = returns response ->
  ok response = false ->
  exists e, fetchHistorical fetch request = throws e.
Proof.
  intros Hf Hok. rewrite (fetchHistorical_not_ok _ _ _ Hf Hok).
  unfold Response_json. destruct (body response) as [j|]; simpl; [|eauto].
  destruct (Get j "error") as [v|e]; simpl; eauto.
Qed.

(** C2, as claimed, fails twice.  A 200 response whose body is not JSON
    makes [fetchHistorical] throw; and a 500 response whose body has the
    [error] member [""] throws the default message, not that member. *)
Lemma fetchHistorical_counterexample :
  let not_json := {| http_status := 200; body := None |} in
  let empty_error :=
    {| http_status := 500;
       body := Some (JObject [("error", JString "")]) |} in
  (ok not_json = true /\
   fetchHistorical (fun _ => returns not_json) sample_request =
     throws SyntaxError) /\
  (ok empty_error = false /\
   error_field empty_error = Some "" /\
   fetchHistorical (fun _ => returns empty_error) sample_request =
     throws (Error fetch_failed) /\
   fetch_failed <> "").
Proof. repeat split; discriminate. Qed.

(** C2, amended.  When [fetch] answers, [fetchHistorical] throws on every
    non-2xx response; if the body of such a response is a JSON object,
    it throws an [Error] whose message is the [error] member when that is
    a non-empty string, and the default message when the member is
    absent or the empty string.  It returns exactly when the response is
    2xx and its body is JSON, and then returns the parsed body. *)
Theorem fetchHistorical_outcome
    (fetch : HistoricalRequest -> completion Response)
    (request : HistoricalRequest) (response : Response) :
  fetch request = returns response ->
  (ok response = false ->
     (exists e, fetchHistorical fetch request = throws e) /\
     forall members, body response = Some (JObject members) ->
       (forall s, lookup "error" members = Some (JString s) -> s <> "" ->
          fetchHistorical fetch request = throws (Error s)) /\
       (lookup "error" members = None \/
        lookup "error" members = Some (JString "") ->
          fetchHistorical fetch request = throws (Error fetch_failed))) /\
  (forall j, fetchHistorical fetch request = returns j <->
             ok response = true /\ body response = Some j).
Proof.
  intros Hf. split.
  - intros Hok. split; [now apply (fetchHistorical_not_ok_throws _ _ response)|].
    intros members Hb.
    rewrite (fetchHistorical_not_ok _ _ _ Hf Hok).
    unfold Response_json. rewrite Hb. simpl. split.
    + intros s Hl Hs. rewrite Hl. simpl. unfold or_value, ToBoolean.
      destruct (String.eqb s "") eqn:E;
        [apply String.eqb_eq in E; contradiction|].
      reflexivity.
    + intros [Hl | Hl]; rewrite Hl; reflexivity.
  - intros j. destruct (ok response) eqn:Hok.
    + rewrite (fetchHistorical_ok _ _ _ Hf Hok). unfold Response_json.
      destruct (body response) as [j'|]; split.
      * intros H. injection H as ->. auto.
      * intros [_ H]. injection H as ->. reflexivity.
      * discriminate.
      * intros [_ H]. discriminate.
    + destruct (fetchHistorical_not_ok_throws _ _ _ Hf Hok) as [e He].
      rewrite He. split; [discriminate|]. intros [H _]. discriminate.
Qed.

Lemma fetchHistorical_outcome_witness :
  let response :=
    {| http_status := 404;
       body := Some (JObject [("error", JString "unknown symbol")]) |} in
  fetchHistorical (fun _ => returns response) sample_request =
    throws (Error "unknown symbol").
Proof.
  intros response.
  destruct (fetchHistorical_outcome (fun _ => returns response)
              sample_request response eq_refl) as [H _].
  destruct (H eq_refl) as [_ Hm].
  destruct (Hm [("error", JString "unknown symbol")] eq_refl) as [Hs _].
  apply Hs; [reflexivity | discriminate].
Defined.

End FetchFacts.


(* ------------------------------------------------------------------ *)
(** ** The query form *)

Module SymbolFormFacts.
Import JS Api SymbolForm.

(** *** [trim] *)

Lemma trimEnd_idem (s : string) : trimEnd (trimEnd s) = trimEnd s.
Proof.
  induction s as [|c r IH]; [reflexivity|]. simpl.
  destruct (trimEnd r) as [|c' r'] eqn:E.
  - destruct (isWhiteSpace c) eqn:W; [reflexivity|]. simpl. now rewrite W.
  - change (trimEnd (String c (String c' r'))) with
      (match trimEnd (String c' r') with
       | EmptyString => if isWhiteSpace c then EmptyString
                        else String c EmptyString
       | r'' => String c r''
       end).
    now rewrite IH.
Qed.

Lemma trimStart_no_leading_space (s : string) : no_leading_space (trimStart s).
Proof.
  induction s as [|c r IH]; simpl; [exact I|].
  destruct (isWhiteSpace c) eqn:W; [exact IH | exact W].
Qed.

Lemma trimStart_fixed (s : string) : no_leading_space s -> trimStart s = s.
Proof. destruct s as [|c r]; simpl; [reflexivity|]. now intros ->. Qed.

Lemma trimEnd_no_leading_space (s : string) :
  no_leading_space s -> no_leading_space (trimEnd s).
Proof.
  destruct s as [|c r]; simpl; [trivial|]. intros W.
  destruct (trimEnd r); [rewrite W|]; exact W.
Qed.

Lemma trim_idem (s : string) : trim (trim s) = trim s.
Proof.
  unfold trim.
  rewrite (trimStart_fixed (trimEnd (trimStart s))).
  - apply trimEnd_idem.
  - apply trimEnd_no_leading_space, trimStart_no_leading_space.
Qed.

(** A trimmed string neither starts nor ends with white space. *)
Lemma trimEnd_last (s : string) (c : ascii) (r : string) :
  trimEnd s = String c r ->
  exists front last, trimEnd s = (front ++ String last "")%string /\
                     isWhiteSpace last = false.
Proof.
  revert c r; induction s as [|a s IH]; intros c r; simpl; [discriminate|].
  destruct (trimEnd s) as [|c' r'] eqn:E.
  - destruct (isWhiteSpace a) eqn:W; [discriminate|]. intros _.
    exists EmptyString, a. auto.
  - intros _. destruct (IH c' r' eq_refl) as [front [last [Hf Hl]]].
    exists (String a front), last. simpl. now rewrite Hf.
Qed.

(** *** The symbol list *)

Lemma symbolList_spec (text s : string) :
  In s (symbolList text) <->
  s <> "" /\ exists piece, In piece (split "," text) /\ s = trim piece.
Proof.
  unfold symbolList. rewrite filter_In, in_map_iff. split.
  - intros [[piece [Hp Hin]] Hlen]. split.
    + intros ->. discriminate.
    + exists piece. auto.
  - intros [Hne [piece [Hin ->]]]. split; [eauto|].
    destruct (trim piece); [contradiction | reflexivity].
Qed.

Lemma symbolList_trimmed (text s : string) :
  In s (symbolList text) -> s <> "" /\ trim s = s.
Proof.
  intros H. apply symbolList_spec in H as [Hne [piece [_ ->]]].
  split; [exact Hne | apply trim_idem].
Qed.

Lemma symbolList_nil (text : string) :
  symbolList text = [] <->
  Forall (fun piece => trim piece = "") (split "," text).
Proof.
  unfold symbolList. generalize (split "," text) as pieces.
  induction pieces as [|p ps IH]; simpl.
  - split; auto.
  - destruct (trim p) as [|c r] eqn:E; simpl.
    + rewrite IH. split; [now constructor|]. intros H. now inversion H.
    + split; [discriminate|]. intros H. inversion H as [|? ? Hp _].
      rewrite E in Hp. discriminate.
Qed.

Section Submit.
Variable Date_toISOString : string -> completion string.

Lemma handleFetchHistorical_sent (st : State) (req : HistoricalRequest) :
  handleFetchHistorical Date_toISOString st = returns (Some req) ->
  Api.symbols req = symbolList (symbols st) /\
  symbolList (symbols st) <> [] /\
  Api.schema req = schema st /\
  Date_toISOString (startTime st) = returns (start_rfc3339 req) /\
  Date_toISOString (endTime st) = returns (end_rfc3339 req) /\
  Api.limit req = Some (limit st).
Proof.
  unfold handleFetchHistorical.
  destruct (symbolList (symbols st)) as [|s0 rest] eqn:E; simpl;
    [discriminate|].
  destruct (Date_toISOString (startTime st)) as [a|]; simpl; [|discriminate].
  destruct (Date_toISOString (endTime st)) as [b|]; simpl; [|discriminate].
  intros H. injection H as <-. simpl. repeat split. discriminate.
Qed.

(** C5. The request a submission hands to [onFetchHistorical] has a
    non-empty [symbols] array of trimmed, non-empty strings, one of the
    three schemas, and the ISO renderings of the start and end fields as
    [start_rfc3339] and [end_rfc3339]; and when every piece of the symbols
    text between commas is empty once trimmed, the handler returns without
    calling [onFetchHistorical]. *)
Theorem submitted_request_shape (st : State) :
  (forall req,
     handleFetchHistorical Date_toISOString st = returns (Some req) ->
     Api.symbols req <> [] /\
     Forall (fun s => s <> "" /\ trim s = s) (Api.symbols req) /\
     In (schema_string (Api.schema req)) ["trades"; "ohlcv-1s"; "ohlcv-1m"] /\
     Date_toISOString (startTime st) = returns (start_rfc3339 req) /\
     Date_toISOString (endTime st) = returns (end_rfc3339 req)) /\
  (Forall (fun piece => trim piece = "") (split "," (symbols st)) ->
     handleFetchHistorical Date_toISOString st = returns None).
Proof.
  split.
  - intros req H.
    apply handleFetchHistorical_sent in H
      as (Hsym & Hne & Hsch & Hstart & Hend & _).
    rewrite Hsym. repeat split; auto.
    + apply Forall_forall. intros s. apply symbolList_trimmed.
    + destruct (Api.schema req); simpl; auto.
  - intros H. apply symbolList_nil in H.
    unfold handleFetchHistorical. now rewrite H.
Qed.

End Submit.

(** The form with the symbols text [" ES.FUT , ,CL.FUT"] sends the two
    symbols, trimmed. *)
Lemma submitted_request_shape_witness :
  let iso := fun s : string => returns (s ++ ":00.000Z")%string in
  let st := symbols_onChange " ES.FUT , ,CL.FUT"
              (initial "2024-01-01T00:00" "2024-01-01T01:00") in
  exists req,
    handleFetchHistorical iso st = returns (Some req) /\
    Api.symbols req = ["ES.FUT"; "CL.FUT"] /\
    Forall (fun s => s <> "" /\ trim s = s) (Api.symbols req).
Proof.
  intros iso st.
  destruct (handleFetchHistorical iso st) as [[req|]|] eqn:E;
    try discriminate.
  exists req. split; [reflexivity|]. split.
  - injection E as <-. reflexivity.
  - apply (proj1 (submitted_request_shape iso st) req E).
Defined.

(** *** The limit field *)

Lemma or_else_truthy (a b : number) :
  truthy b = true -> truthy (or_else a b) = true.
Proof. unfold or_else. destruct (truthy a) eqn:E; auto. Qed.

(** The limit cell never holds [NaN] or zero. *)
Lemma limit_truthy (es : list Edit) (defaultStart defaultEnd : string) :
  truthy (limit (apply_edits es (initial defaultStart defaultEnd))) = true.
Proof.
  unfold apply_edits.
  assert (H0 : truthy (limit (initial defaultStart defaultEnd)) = true)
    by reflexivity.
  revert H0. generalize (initial defaultStart defaultEnd) as st.
  induction es as [|e es IH]; intros st H0; simpl; [exact H0|].
  apply IH. destruct e; simpl; try exact H0.
  now apply or_else_truthy.
Qed.

Lemma integer_is_finite (x : number) (n : Z) :
  integer_value x = Some n -> is_finite x = true.
Proof.
  intros H. unfold is_finite.
  destruct (NumberFacts.integer_value_ord x n H) as [-> _].
  unfold integer_value in H. unfold is_infinity.
  rewrite eqb_spec, abs_spec.
  destruct (Prim2SF x) as [s|s| |s m e]; try discriminate; reflexivity.
Qed.

(** C6 fails on the code.  The limit field takes any text that is a
    valid floating-point number, and [parseInt] reads the digits before
    the exponent: for a [-] and 309 nines it returns [-Infinity], which
    is truthy, so the limit cell holds [-Infinity].  The input then shows
    [String(limit)], which is no valid floating-point number and leaves a
    number input empty; an empty input passes the [min] and [max]
    constraints, the submit event is fired, and the handler sends
    [-Infinity] as the [limit] of the request. *)
Lemma infinite_limit_submitted :
  let iso := fun s : string => returns (s ++ ":00.000Z")%string in
  let st := apply_edits [edit_limit long_limit_text]
              (initial "2024-01-01T00:00" "2024-01-01T01:00") in
  valid_floating_point_number long_limit_text = true /\
  is_finite (number_of_literal true (10 ^ 309 - 1) (-300)) = true /\
  parseInt long_limit_text = neg_infinity /\
  limit st = neg_infinity /\
  (limit st <? 0)%float = true /\
  integer_value (limit st) = None /\
  Number_toString (limit st) = "-Infinity" /\
  valid_floating_point_number (Number_toString (limit st)) = false /\
  exists req,
    submit iso false false false st = Some (returns (Some req)) /\
    Api.limit req = Some neg_infinity.
Proof.
  intros iso st.
  repeat (split; [vm_compute; reflexivity|]).
  eexists. split; vm_compute; reflexivity.
Qed.

(** X19. What the browser's validation of the limit input guarantees.
    Every request the form submits carries the limit of the form; after
    any sequence of edits that limit is an integer from 1 to 10000 unless
    it is an infinity, and it is never [NaN].  While the limit is an
    integer below 1 or above 10000, [-5] and [0] among them, no submit
    event is fired and nothing is sent. *)
Theorem submitted_limit_in_range
    (Date_toISOString : string -> completion string)
    (es : list Edit) (defaultStart defaultEnd : string)
    (isLoading isLiveConnected badInput : bool) :
  let st := apply_edits es (initial defaultStart defaultEnd) in
  (forall req,
     submit Date_toISOString isLoading isLiveConnected badInput st =
       Some (returns (Some req)) ->
     Api.limit req = Some (limit st) /\
     is_nan (limit st) = false /\
     (is_infinity (limit st) = true \/
      exists n : Z,
        integer_value (limit st) = Some n /\ (1 <= n <= 10000)%Z)) /\
  (forall n : Z,
     integer_value (limit st) = Some n -> (n < 1 \/ 10000 < n)%Z ->
     submit Date_toISOString isLoading isLiveConnected badInput st = None).
Proof.
  intros st. split.
  - intros req H. unfold submit in H.
    destruct (isLoading || isLiveConnected)%bool; [discriminate|].
    destruct badInput; [discriminate|]. cbn [negb andb] in H.
    destruct (limit_input_valid (limit st)) eqn:V; [|discriminate].
    injection H as H.
    apply handleFetchHistorical_sent in H as (_ & _ & _ & _ & _ & Hl).
    split; [exact Hl|].
    pose proof (limit_truthy es defaultStart defaultEnd) as Ht.
    fold st in Ht. unfold truthy in Ht.
    destruct (is_nan (limit st)) eqn:N; [discriminate|].
    split; [reflexivity|].
    unfold limit_input_valid, is_finite in V. rewrite N in V.
    destruct (is_infinity (limit st)); [left; reflexivity|right].
    cbn [orb negb] in V.
    destruct (integer_value (limit st)) as [n|] eqn:I;
      [|rewrite andb_false_r in V; discriminate].
    rewrite andb_true_r in V. apply andb_true_iff in V as [V1 V2].
    rewrite (NumberFacts.integer_leb 1%float (limit st) 1 n eq_refl I) in V1.
    rewrite (NumberFacts.integer_leb (limit st) 10000%float n 10000 I eq_refl)
      in V2.
    exists n. split; [reflexivity|]. lia.
  - intros n I Hn. unfold submit.
    destruct (isLoading || isLiveConnected)%bool; [reflexivity|].
    unfold limit_input_valid. rewrite (integer_is_finite _ _ I), I.
    rewrite (NumberFacts.integer_leb 1%float (limit st) 1 n eq_refl I).
    rewrite (NumberFacts.integer_leb (limit st) 10000%float n 10000 I eq_refl).
    destruct (Z.leb_spec 1 n), (Z.leb_spec n 10000); try lia;
      destruct badInput; reflexivity.
Qed.

Lemma submitted_limit_in_range_witness :
  let iso := fun s : string => returns (s ++ ":00.000Z")%string in
  (exists n : Z,
     integer_value
       (limit (apply_edits [edit_limit "-5"; edit_limit "250"]
                 (initial "2024-01-01T00:00" "2024-01-01T01:00"))) = Some n /\
     (1 <= n <= 10000)%Z) /\
  submit iso false false false
    (apply_edits [edit_limit "250"; edit_limit "-5"]
       (initial "2024-01-01T00:00" "2024-01-01T01:00")) = None.
Proof.
  intros iso. split.
  - destruct (submitted_limit_in_range iso
                [edit_limit "-5"; edit_limit "250"]
                "2024-01-01T00:00" "2024-01-01T01:00" false false false)
      as [H _].
    destruct (H {| Api.symbols := ["ES.FUT"]; Api.schema := trades;
                   stype_in := None;
                   start_rfc3339 := "2024-01-01T00:00:00.000Z";
                   end_rfc3339 := "2024-01-01T01:00:00.000Z";
                   Api.limit := Some 250%float |} eq_refl)
      as (_ & _ & [Hinf | Hn]); [discriminate Hinf | exact Hn].
  - destruct (submitted_limit_in_range iso
                [edit_limit "250"; edit_limit "-5"]
                "2024-01-01T00:00" "2024-01-01T01:00" false false false)
      as [_ H].
    apply (H (-5)%Z); [reflexivity | lia].
Defined.

End SymbolFormFacts.


(* ------------------------------------------------------------------ *)
(** ** Sorting by a numeric key *)

Module SortFacts.
Import Binary64 NumberFacts JS.

Section ByKey.
Context {A : Type}.
Variable key : A -> number.

Lemma insert_permutation (cmp : A -> A -> number) (x : A) (l : list A) :
  Permutation (insert cmp x l) (x :: l).
Proof.
  induction l as [|y l IH]; simpl; [reflexivity|].
  destruct (comes_after cmp x y); [|reflexivity].
  rewrite IH. apply perm_swap.
Qed.

Lemma sort_permutation (cmp : A -> A -> number) (l : list A) :
  Permutation (sort cmp l) l.
Proof.
  induction l as [|x l IH]; simpl; [reflexivity|].
  unfold sort in *. simpl. rewrite insert_permutation. now constructor.
Qed.

Lemma comes_after_ord (x y : A) :
  (is_number key) x -> (is_number key) y ->
  comes_after (difference key) x y = (ord (key y) <? ord (key x))%Z.
Proof. intros Hx Hy. unfold comes_after, difference. now apply sub_positive. Qed.

Lemma insert_sorted (x : A) (l : list A) :
  (is_number key) x -> Forall (is_number key) l ->
  Sorted (ord_le key) l -> Sorted (ord_le key) (insert (difference key) x l).
Proof.
  intros Hx Hl Hs. induction l as [|y l IH]; simpl.
  - repeat constructor.
  - inversion Hl as [|? ? Hy Hl']; subst.
    inversion Hs as [|? ? Hs' Hhd]; subst.
    rewrite (comes_after_ord x y Hx Hy).
    destruct (Z.ltb_spec (ord (key y)) (ord (key x))) as [Hlt | Hge].
    + constructor; [now apply IH|].
      destruct l as [|z l]; simpl.
      * constructor. unfold ord_le. lia.
      * inversion Hl' as [|? ? Hz _]; subst.
        rewrite (comes_after_ord x z Hx Hz).
        destruct (Z.ltb_spec (ord (key z)) (ord (key x))).
        -- constructor. now inversion Hhd.
        -- constructor. unfold ord_le. lia.
    + constructor; [exact Hs|]. constructor. exact Hge.
Qed.

Lemma sort_sorted (l : list A) :
  Forall (is_number key) l -> Sorted (ord_le key) (sort (difference key) l).
Proof.
  induction l as [|x l IH]; intros Hl; [constructor|].
  inversion Hl as [|? ? Hx Hl']; subst.
  change (sort (difference key) (x :: l)) with (insert (difference key) x (sort (difference key) l)).
  apply insert_sorted; auto.
  apply Forall_forall. intros a Ha.
  apply (Permutation_in _ (sort_permutation (difference key) l)) in Ha.
  revert a Ha. now apply Forall_forall.
Qed.

(** The array is ascending in the comparison of numbers itself: every
    element is [<=] every later one. *)
Lemma sort_ascending (l : list A) :
  Forall (is_number key) l ->
  StronglySorted (fun a b => (key a <=? key b)%float = true)
                 (sort (difference key) l).
Proof.
  intros Hl.
  assert (Hn : Forall (is_number key) (sort (difference key) l)).
  { apply Forall_forall. intros a Ha.
    apply (Permutation_in _ (sort_permutation (difference key) l)) in Ha.
    revert a Ha. now apply Forall_forall. }
  assert (Hs : StronglySorted (ord_le key) (sort (difference key) l)).
  { apply Sorted_StronglySorted; [|now apply sort_sorted].
    intros a b c. unfold ord_le. lia. }
  induction Hs as [|a rest Hs IH Hall]; [constructor|].
  inversion Hn as [|? ? Ha Hrest]; subst.
  constructor; [now apply IH|].
  rewrite Forall_forall in *. intros b Hb.
  rewrite leb_ord by (auto; now apply Hrest).
  apply Z.leb_le. now apply Hall.
Qed.

End ByKey.

End SortFacts.

(* ------------------------------------------------------------------ *)
(** ** Prices and the candlestick series *)

Module PriceFacts.
Import Binary64 NumberFacts SortFacts JS Api.
Import TradeTape HistoricalChart.

(** [PRICE_SCALE] is the integer [10^9], exactly. *)
Lemma PRICE_SCALE_exact :
  Prim2SF PRICE_SCALE = S754_finite false 8388608000000000 (-23) /\
  (8388608000000000 = 10 ^ 9 * 2 ^ 23)%Z.
Proof. split; reflexivity. Qed.



(** Prices of the README's instrument, decoded. *)
Lemma formatPrice_examples :
  formatPriceNumber 1000000000%float = 1%float /\
  formatPriceNumber 4512250000000%float = 4512.25%float /\
  formatPrice 4512250000000%float = "4512.25" /\
  formatPrice 4512000000000%float = "4512.00" /\
  formatPrice 1005000000%float = "1.00" /\
  formatPrice 5000000%float = "0.01" /\
  formatPrice (-1500000000)%float = "-1.50".
Proof. repeat split; vm_compute; reflexivity. Qed.

(** *** [toFixed(2)] *)

Lemma length_append (s t : string) :
  String.length (s ++ t) = (String.length s + String.length t)%nat.
Proof. induction s as [|c s IH]; simpl; [reflexivity | now rewrite IH]. Qed.

Lemma length_zeros (n : nat) : String.length (zeros n) = n.
Proof. induction n as [|n IH]; simpl; [reflexivity | now rewrite IH]. Qed.

Lemma take_drop (n : nat) (s : string) : (take n s ++ drop n s)%string = s.
Proof.
  revert s. induction n as [|n IH]; intros [|c s]; simpl; try reflexivity.
  now rewrite IH.
Qed.

Lemma length_drop (n : nat) (s : string) :
  String.length (drop n s) = (String.length s - n)%nat.
Proof.
  revert s. induction n as [|n IH]; intros [|c s]; simpl; try reflexivity.
  apply IH.
Qed.

Lemma fraction_positive (m : positive) (e : Z) :
  (0 < fst (fraction m e))%Z /\ (0 < snd (fraction m e))%Z.
Proof.
  unfold fraction. destruct e as [|p|p]; cbn [fst snd].
  - lia.
  - split; [|lia]. apply Z.mul_pos_pos; [lia|]. apply Z.pow_pos_nonneg; lia.
  - split; [lia|]. rewrite Z.pow_pos_fold. apply Z.pow_pos_nonneg; lia.
Qed.

(** The integer [toFixed] prints is the nearest to the scaled value, the
    larger of two equally near ones. *)
Lemma nearest_scaled_spec (num den : Z) (f : nat) :
  (0 < den)%Z ->
  let n := nearest_scaled num den f in
  (2 * den * n <= 2 * num * 10 ^ Z.of_nat f + den < 2 * den * (n + 1))%Z.
Proof.
  intros Hden n. unfold n, nearest_scaled.
  set (a := (2 * num * 10 ^ Z.of_nat f + den)%Z).
  pose proof (Z.mul_div_le a (2 * den) ltac:(lia)).
  pose proof (Z.mul_succ_div_gt a (2 * den) ltac:(lia)).
  lia.
Qed.

(** A finite, non-zero number below [10^21] is printed as an optional
    minus sign, at least one digit, a point and exactly two digits; the
    digits are those of the nearest integer number of hundredths. *)
Lemma toFixed_two_places (x : number) (sign : bool) (m : positive) (e : Z) :
  Prim2SF x = S754_finite sign m e ->
  (fst (fraction m e) < 10 ^ 21 * snd (fraction m e))%Z ->
  exists (n : Z) (whole frac : string),
    toFixed x 2 =
      ((if sign then "-" else "") ++ whole ++ "." ++ frac)%string /\
    String.length frac = 2%nat /\
    (1 <= String.length whole)%nat /\
    (whole ++ frac)%string =
      (zeros (3 - String.length (digits n)) ++ digits n)%string /\
    (2 * snd (fraction m e) * n
       <= 200 * fst (fraction m e) + snd (fraction m e)
       < 2 * snd (fraction m e) * (n + 1))%Z.
Proof.
  intros Hx Hlt. unfold toFixed. rewrite Hx.
  pose proof (fraction_positive m e) as [_ Hden].
  destruct (fraction m e) as [num den]. cbn [fst snd] in *.
  destruct (Z.leb_spec (10 ^ 21 * den) num) as [Hge | _]; [lia|].
  set (n := nearest_scaled num den 2).
  set (d := (zeros (3 - String.length (digits n)) ++ digits n)%string).
  assert (Hd : (3 <= String.length d)%nat)
    by (unfold d; rewrite length_append, length_zeros; lia).
  exists n, (take (String.length d - 2) d), (drop (String.length d - 2) d).
  split; [reflexivity|]. split; [rewrite length_drop; lia|]. split.
  - pose proof (take_drop (String.length d - 2) d) as Htd.
    apply (f_equal String.length) in Htd.
    rewrite length_append, length_drop in Htd. lia.
  - split; [apply take_drop|].
    pose proof (nearest_scaled_spec num den 2 Hden) as Hn.
    change (10 ^ Z.of_nat 2)%Z with 100%Z in Hn. fold n in Hn.
    cbv zeta in Hn. lia.
Qed.



(** C8. For a non-empty array of bars whose timestamps are numbers, the
    array handed to [setData] is the bars mapped to candles and ordered by
    ascending time: every candle's time is [<=] the time of every later
    one; each candle has the time [ts_event_unix_ns / 1e9] and the prices
    [open_i64 / 1e9], ..., [close_i64 / 1e9] of a bar of the input. *)
Theorem chart_series_sorted (data : list OhlcvRecord) :
  data <> [] ->
  Forall (fun bar => is_nan (bar_ts_event_unix_ns bar) = false) data ->
  exists series,
    setData true data = Some series /\
    StronglySorted (fun a b => (time a <=? time b)%float = true) series /\
    Permutation series (map toCandle data) /\
    Forall (fun c => exists bar,
              In bar data /\
              time c = (bar_ts_event_unix_ns bar / 1e9)%float /\
              open c = (open_i64 bar / 1e9)%float /\
              high c = (high_i64 bar / 1e9)%float /\
              low c = (low_i64 bar / 1e9)%float /\
              close c = (close_i64 bar / 1e9)%float) series.
Proof.
  intros Hne Hts. exists (chartData data). split; [|split; [|split]].
  - unfold setData. destruct data; [contradiction | reflexivity].
  - apply (sort_ascending time).
    apply Forall_forall. intros c Hc. apply in_map_iff in Hc as [bar [<- Hin]].
    rewrite Forall_forall in Hts. unfold is_number. simpl.
    apply (div_not_nan _ 1e9 8388608000000000 (-23)); [reflexivity|].
    now apply Hts.
  - apply sort_permutation.
  - apply Forall_forall. intros c Hc.
    apply (Permutation_in _ (sort_permutation by_time (map toCandle data)))
      in Hc.
    apply in_map_iff in Hc as [bar [<- Hin]].
    exists bar. repeat split. exact Hin.
Qed.

Lemma chart_series_sorted_witness :
  exists series,
    setData true sample_bars = Some series /\
    StronglySorted (fun a b => (time a <=? time b)%float = true) series /\
    map time series = [1704067200; 1704067260; 1704067320]%float.
Proof.
  destruct (chart_series_sorted sample_bars)
    as [series [Hset [Hsorted _]]].
  - discriminate.
  - repeat constructor.
  - exists series. split; [exact Hset|]. split; [exact Hsorted|].
    injection Hset as <-. reflexivity.
Defined.

End PriceFacts.


(* ------------------------------------------------------------------ *)
(** ** A live session, from the socket to the buffer *)

Module SessionFacts.
Import Api LiveStream.

Lemma last_cons {A : Type} (x : A) (l : list A) (d : A) :
  last (x :: l) d = last l x.
Proof.
  revert x d. induction l as [|y l IH]; intros x d; [reflexivity|].
  change (last (x :: y :: l) d) with (last (y :: l) d).
  now rewrite (IH y d), (IH y x).
Qed.

Lemma last_app_default {A : Type} (l1 l2 : list A) (d : A) :
  last (l1 ++ l2) d = last l2 (last l1 d).
Proof.
  revert d. induction l1 as [|x l1 IH]; intros d; [reflexivity|].
  cbn [app]. now rewrite !last_cons, IH.
Qed.

Lemma step_status (ev : Event) (st : State) :
  status (fst (step ev st)) =
  match status_written ev with Some s => s | None => status st end.
Proof. destruct ev as [[]| |]; reflexivity. Qed.

Lemma step_received (ev : Event) (st : State) :
  flat_map (fun e => match e with onTrade t => [t] | _ => [] end)
           (snd (step ev st)) = received [ev].
Proof. destruct ev as [[]| |]; reflexivity. Qed.

(** X1. After any sequence of socket events the status is the one the
    last status-writing event wrote (the initial one when there was
    none), so an error is not final: a later [connected] message shows
    ['connected'] again.  The message count went up by one for each
    [trade] message and for nothing else, and the socket reference is
    the one the run started with. *)
Theorem state_after_run (evs : list Event) (st : State) :
  status (fst (run evs st)) = last (written evs) (status st) /\
  messageCount (fst (run evs st)) =
    Nat.iter (List.length (received evs)) (fun c => (c + 1)%float)
             (messageCount st) /\
  wsRef (fst (run evs st)) = wsRef st.
Proof.
  revert st. induction evs as [|ev evs IH]; intros st; [repeat split|].
  cbn [run]. pose proof (step_status ev st) as Hs.
  assert (Hc : messageCount (fst (step ev st)) =
               Nat.iter (List.length (received [ev]))
                        (fun c => (c + 1)%float) (messageCount st))
    by (destruct ev as [[]| |]; reflexivity).
  assert (Hw : wsRef (fst (step ev st)) = wsRef st)
    by (destruct ev as [[]| |]; reflexivity).
  destruct (step ev st) as [st1 out1]. cbn [fst] in Hs, Hc, Hw.
  destruct (IH st1) as (IHs & IHc & IHw).
  destruct (run evs st1) as [st2 out2]. cbn [fst] in *.
  split; [|split].
  - rewrite IHs, Hs. change (ev :: evs) with ([ev] ++ evs).
    unfold written. rewrite flat_map_app. fold (written [ev]) (written evs).
    rewrite last_app_default. f_equal.
    unfold written. cbn [flat_map].
    destruct (status_written ev); reflexivity.
  - rewrite IHc, Hc. change (ev :: evs) with ([ev] ++ evs).
    unfold received at 3. rewrite flat_map_app.
    fold (received [ev]) (received evs).
    rewrite length_app, Nat.add_comm. symmetry. apply Nat.iter_add.
  - congruence.
Qed.

(** The trades [onTrade] was called with are the trades of the [trade]
    messages, in arrival order. *)
Lemma run_received (evs : list Event) (st : State) :
  flat_map (fun e => match e with onTrade t => [t] | _ => [] end)
           (snd (run evs st)) = received evs.
Proof.
  revert st. induction evs as [|ev evs IH]; intros st; [reflexivity|].
  cbn [run]. pose proof (step_received ev st) as Hs.
  destruct (step ev st) as [st1 out1]. cbn [snd] in Hs.
  specialize (IH st1). destruct (run evs st1) as [st2 out2]. cbn [snd] in *.
  rewrite flat_map_app, Hs, IH. unfold received. cbn [flat_map].
  now rewrite app_nil_r.
Qed.

Lemma run_disconnects (evs : list Event) (st : State) :
  existsb (fun e => match e with onDisconnect => true | _ => false end)
          (snd (run evs st)) = existsb is_close evs.
Proof.
  revert st. induction evs as [|ev evs IH]; intros st; [reflexivity|].
  cbn [run].
  assert (Hs : existsb (fun e => match e with
                                 | onDisconnect => true | _ => false end)
                       (snd (step ev st)) = is_close ev)
    by (destruct ev as [[]| |]; reflexivity).
  destruct (step ev st) as [st1 out1]. cbn [snd] in Hs.
  specialize (IH st1). destruct (run evs st1) as [st2 out2]. cbn [snd] in *.
  rewrite existsb_app, Hs, IH. reflexivity.
Qed.

Lemma dispatch_liveTrades (effects : list Effect) (app : App.State) :
  App.liveTrades (App.dispatch effects app) =
  fold_left (fun acc t => App.slice0 100 (t :: acc))
    (flat_map (fun e => match e with onTrade t => [t] | _ => [] end) effects)
    (App.liveTrades app).
Proof.
  unfold App.dispatch. revert app.
  induction effects as [|e effects IH]; intros app; [reflexivity|].
  cbn [fold_left flat_map]. rewrite IH.
  destruct e; reflexivity.
Qed.

Lemma dispatch_isLiveConnected (effects : list Effect) (app : App.State) :
  App.isLiveConnected (App.dispatch effects app) =
  (App.isLiveConnected app &&
   negb (existsb (fun e => match e with
                           | onDisconnect => true | _ => false end)
                 effects))%bool.
Proof.
  unfold App.dispatch. revert app.
  induction effects as [|e effects IH]; intros app;
    [cbn; now rewrite andb_true_r|].
  cbn [fold_left existsb]. rewrite IH.
  destruct e; cbn; try reflexivity. now rewrite andb_false_r.
Qed.

Lemma dispatch_current (effects : list Effect) (app : App.State) :
  App.currentSymbols (App.dispatch effects app) = App.currentSymbols app /\
  App.currentSchema (App.dispatch effects app) = App.currentSchema app.
Proof.
  unfold App.dispatch. revert app.
  induction effects as [|e effects IH]; intros app; [split; reflexivity|].
  cbn [fold_left]. destruct (IH (App.callback e app)) as [H1 H2].
  rewrite H1, H2. destruct e; split; reflexivity.
Qed.

Lemma session_cells
    (p : Props) (evs : list Event)
    (symbols : list string) (schema : Schema) (app : App.State) :
  let session :=
    App.dispatch (snd (run evs (mount p)))
                 (App.handleLiveConnect symbols schema app) in
  App.liveTrades session = firstn 100 (rev (received evs)) /\
  App.isLiveConnected session = negb (existsb is_close evs) /\
  App.currentSymbols session = symbols /\
  App.currentSchema session = schema.
Proof.
  cbv zeta. split; [|split].
  - rewrite dispatch_liveTrades, run_received.
    cbn [App.handleLiveConnect App.liveTrades].
    pose proof (AppFacts.buffer_fold (received evs) []) as H.
    unfold App.slice0 in *. rewrite firstn_nil, app_nil_r in H. exact H.
  - rewrite dispatch_isLiveConnected, run_disconnects. reflexivity.
  - apply dispatch_current.
Qed.

(** X2. From [handleLiveConnect] on, whatever the socket delivers, the
    buffer of [App] holds the trades of the [trade] messages, newest
    first, cut to the first 100: errors, acknowledgements, bars and the
    close of the socket in between change nothing of it.  The page stays
    live exactly as long as no close event arrived, and the symbols and
    schema of the session stay what [handleLiveConnect] set. *)
Theorem live_session_buffer
    (p : Props) (evs : list Event)
    (symbols : list string) (schema : Schema) (app : App.State) :
  let session :=
    App.dispatch (snd (run evs (mount p)))
                 (App.handleLiveConnect symbols schema app) in
  App.liveTrades session = firstn 100 (rev (received evs)) /\
  App.isLiveConnected session = negb (existsb is_close evs) /\
  App.currentSymbols session = symbols /\
  App.currentSchema session = schema.
Proof. apply session_cells. Qed.

(** X3. Whatever the socket delivered since the component mounted, the
    cleanup closes the socket that was opened for the props, once: it
    clears the reference, and a second cleanup does nothing. *)
Theorem cleanup_closes_once (p : Props) (evs : list Event) :
  let st := fst (run evs (mount p)) in
  let ws := {| ws_symbols := symbols p; ws_schema := schema p |} in
  snd (cleanup st) = [ws_close ws] /\
  wsRef (fst (cleanup st)) = None /\
  status (fst (cleanup st)) = status st /\
  cleanup (fst (cleanup st)) = (fst (cleanup st), []).
Proof.
  cbv zeta. pose proof (LiveStreamFacts.run_keeps_socket evs (mount p)) as Hw.
  unfold cleanup. rewrite Hw. cbn. repeat split.
Qed.

End SessionFacts.


(* ------------------------------------------------------------------ *)
(** ** The order of the candlestick series *)

Module ChartOrderFacts.
Import Binary64 NumberFacts SortFacts JS Api HistoricalChart.

Lemma eqb_ord (x y : float) :
  is_nan x = false -> is_nan y = false ->
  (x =? y)%float = (ord x =? ord y)%Z.
Proof.
  intros Nx Ny. apply is_nan_spec in Nx, Ny.
  rewrite eqb_spec. unfold SFeqb, ord.
  rewrite (SFcompare_ord _ _ (Prim2SF_valid x) (Prim2SF_valid y) Nx Ny).
  rewrite Z.eqb_compare.
  destruct (SFord (Prim2SF x) ?= SFord (Prim2SF y))%Z; reflexivity.
Qed.

Section ByKey.
Context {A : Type}.
Variable key : A -> number.

(** An element moves only past elements of a smaller key, so inserting
    it leaves the elements of any one key in the order they had. *)
Lemma insert_stable (k : number) (x : A) (l : list A) :
  is_nan k = false ->
  is_number key x -> Forall (is_number key) l ->
  filter (fun a => (key a =? k)%float) (insert (difference key) x l) =
  filter (fun a => (key a =? k)%float) (x :: l).
Proof.
  intros Nk Hx Hl. induction l as [|y l IH]; [reflexivity|].
  inversion Hl as [|? ? Hy Hl']; subst. cbn [insert].
  rewrite (comes_after_ord key x y Hx Hy).
  destruct (Z.ltb_spec (ord (key y)) (ord (key x))) as [Hlt | _];
    [|reflexivity].
  cbn [filter] in *. rewrite (IH Hl').
  rewrite (eqb_ord (key x) k Hx Nk), (eqb_ord (key y) k Hy Nk).
  destruct (Z.eqb_spec (ord (key x)) (ord k)),
           (Z.eqb_spec (ord (key y)) (ord k)); try reflexivity; lia.
Qed.

Lemma sort_is_number (l : list A) :
  Forall (is_number key) l -> Forall (is_number key) (sort (difference key) l).
Proof.
  intros H. apply Forall_forall. intros a Ha.
  apply (Permutation_in _ (sort_permutation (difference key) l)) in Ha.
  revert a Ha. now apply Forall_forall.
Qed.

Lemma sort_stable (k : number) (l : list A) :
  is_nan k = false -> Forall (is_number key) l ->
  filter (fun a => (key a =? k)%float) (sort (difference key) l) =
  filter (fun a => (key a =? k)%float) l.
Proof.
  intros Nk Hl. induction l as [|x l IH]; [reflexivity|].
  inversion Hl as [|? ? Hx Hl']; subst.
  change (sort (difference key) (x :: l))
    with (insert (difference key) x (sort (difference key) l)).
  rewrite (insert_stable k x _ Nk Hx (sort_is_number l Hl')).
  cbn [filter]. now rewrite (IH Hl').
Qed.

Lemma insert_head (x : A) (l : list A) :
  is_number key x -> Forall (is_number key) l ->
  HdRel (fun a b => (key a <=? key b)%float = true) x l ->
  insert (difference key) x l = x :: l.
Proof.
  intros Hx Hl Hhd. destruct l as [|y l]; [reflexivity|].
  inversion Hl as [|? ? Hy _]; subst. inversion Hhd as [|? ? Hle]; subst.
  cbn [insert]. rewrite (comes_after_ord key x y Hx Hy).
  rewrite (leb_ord _ _ Hx Hy) in Hle. apply Z.leb_le in Hle.
  destruct (Z.ltb_spec (ord (key y)) (ord (key x))); [lia | reflexivity].
Qed.

Lemma sort_sorted_fixed (l : list A) :
  Forall (is_number key) l ->
  Sorted (fun a b => (key a <=? key b)%float = true) l ->
  sort (difference key) l = l.
Proof.
  intros Hl Hs. induction l as [|x l IH]; [reflexivity|].
  inversion Hl as [|? ? Hx Hl']; subst.
  inversion Hs as [|? ? Hs' Hhd]; subst.
  change (sort (difference key) (x :: l))
    with (insert (difference key) x (sort (difference key) l)).
  rewrite (IH Hl' Hs'). now apply insert_head.
Qed.

End ByKey.

Lemma candle_times (data : list OhlcvRecord) :
  Forall (fun bar => is_nan (bar_ts_event_unix_ns bar) = false) data ->
  Forall (is_number time) (map toCandle data).
Proof.
  intros H. apply Forall_forall. intros c Hc.
  apply in_map_iff in Hc as [bar [<- Hin]].
  rewrite Forall_forall in H. unfold is_number. cbn [time toCandle].
  apply (div_not_nan _ 1e9 8388608000000000 (-23)); [reflexivity|].
  now apply H.
Qed.

(** X4. The sort of the chart is stable: bars whose timestamps are
    numbers and whose candles have the same time stay, in the series, in
    the order the response listed them. *)
Theorem chartData_stable (data : list OhlcvRecord) (t : number) :
  Forall (fun bar => is_nan (bar_ts_event_unix_ns bar) = false) data ->
  is_nan t = false ->
  filter (fun c => (time c =? t)%float) (chartData data) =
  filter (fun c => (time c =? t)%float) (map toCandle data).
Proof.
  intros Hts Nt. apply (sort_stable time t _ Nt). now apply candle_times.
Qed.

Lemma chartData_stable_witness :
  map close (chartData tied_bars) = [4513; 4515; 4512; 4514]%float /\
  map close (filter (fun c => (time c =? 1704067260)%float)
                    (chartData tied_bars)) = [4512; 4514]%float /\
  map close (filter (fun c => (time c =? 1704067200)%float)
                    (chartData tied_bars)) = [4513; 4515]%float.
Proof.
  split; [reflexivity|]. split.
  - rewrite (chartData_stable tied_bars 1704067260%float);
      [reflexivity | repeat constructor | reflexivity].
  - rewrite (chartData_stable tied_bars 1704067200%float);
      [reflexivity | repeat constructor | reflexivity].
Defined.

(** X5. Bars that arrive with ascending candle times are charted as they
    are: the series is the candles in the order of the response, and
    sorting a series again changes nothing. *)
Theorem chartData_of_ascending (data : list OhlcvRecord) :
  Forall (fun bar => is_nan (bar_ts_event_unix_ns bar) = false) data ->
  (Sorted (fun a b => (time a <=? time b)%float = true) (map toCandle data) ->
   chartData data = map toCandle data) /\
  sort by_time (chartData data) = chartData data.
Proof.
  intros Hts. pose proof (candle_times data Hts) as Hn. split.
  - intros Hs. now apply (sort_sorted_fixed time).
  - apply (sort_sorted_fixed time).
    + now apply (sort_is_number time).
    + apply StronglySorted_Sorted. now apply (sort_ascending time).
Qed.

Lemma chartData_of_ascending_witness :
  chartData (skipn 1 sample_bars) = map toCandle (skipn 1 sample_bars).
Proof.
  destruct (chartData_of_ascending (skipn 1 sample_bars)) as [H _].
  - repeat constructor.
  - apply H. repeat constructor.
Defined.

End ChartOrderFacts.


(* ------------------------------------------------------------------ *)
(** ** The form: symbols, edits, the live toggle, the default range *)

Module FormFacts.
Import JS Api SymbolForm.

(** *** Splitting what was joined *)

Lemma split_not_nil (sep : ascii) (s : string) : split sep s <> [].
Proof.
  induction s as [|c r IH]; cbn [split]; [discriminate|].
  destruct (Ascii.eqb c sep); [discriminate|].
  destruct (split sep r); [contradiction | discriminate].
Qed.

Lemma split_pieces (sep : ascii) (s : string) :
  Forall (fun piece => includes sep piece = false) (split sep s).
Proof.
  induction s as [|c r IH]; cbn [split]; [repeat constructor|].
  destruct (Ascii.eqb c sep) eqn:E; [constructor; [reflexivity | exact IH]|].
  destruct (split sep r) as [|h t]; [repeat constructor; cbn; now rewrite E|].
  inversion IH as [|? ? Hh Ht]; subst.
  constructor; [cbn; now rewrite E | exact Ht].
Qed.

Lemma includes_trimStart (c : ascii) (s : string) :
  includes c s = false -> includes c (trimStart s) = false.
Proof.
  induction s as [|a r IH]; [trivial|]. intros H. cbn [trimStart].
  destruct (isWhiteSpace a); [|exact H].
  cbn [includes] in H. apply orb_false_iff in H as [_ H]. now apply IH.
Qed.

Lemma includes_trimEnd (c : ascii) (s : string) :
  includes c s = false -> includes c (trimEnd s) = false.
Proof.
  induction s as [|a r IH]; [trivial|]. intros H. cbn [includes] in H.
  apply orb_false_iff in H as [Ha Hr]. specialize (IH Hr). cbn [trimEnd].
  destruct (trimEnd r) as [|a' r'].
  - destruct (isWhiteSpace a); [reflexivity|]. cbn. now rewrite Ha.
  - cbn [includes] in *. now rewrite Ha, IH.
Qed.

Lemma includes_trim (c : ascii) (s : string) :
  includes c s = false -> includes c (trim s) = false.
Proof. intros H. now apply includes_trimEnd, includes_trimStart. Qed.

Lemma split_whole (sep : ascii) (s : string) :
  includes sep s = false -> split sep s = [s].
Proof.
  induction s as [|c r IH]; [reflexivity|]. intros H. cbn [includes] in H.
  apply orb_false_iff in H as [Hc Hr]. cbn [split]. rewrite Hc.
  now rewrite (IH Hr).
Qed.

Lemma split_append (sep : ascii) (x rest : string) :
  includes sep x = false ->
  split sep (x ++ String sep rest) = x :: split sep rest.
Proof.
  induction x as [|c r IH]; intros H.
  - cbn. now rewrite Ascii.eqb_refl.
  - cbn [includes] in H. apply orb_false_iff in H as [Hc Hr].
    cbn [append split]. rewrite Hc, (IH Hr). reflexivity.
Qed.

Lemma split_join (l : list string) :
  l <> [] -> Forall (fun s => includes "," s = false) l ->
  split "," (join "," l) = l.
Proof.
  induction l as [|x l IH]; [contradiction|]. intros _ H.
  inversion H as [|? ? Hx Hl]; subst.
  destruct l as [|y l]; [now apply split_whole|].
  change (join "," (x :: y :: l))
    with (x ++ String "," (join "," (y :: l)))%string.
  rewrite (split_append _ _ _ Hx). f_equal. apply IH; [discriminate | exact Hl].
Qed.

(** With [", "] between the symbols, as the footer shows them, the
    pieces after the first start with the space. *)
Lemma split_join_spaced (x : string) (l : list string) :
  Forall (fun s => includes "," s = false) (x :: l) ->
  split "," (join ", " (x :: l)) = x :: map (String " ") l.
Proof.
  revert x. induction l as [|y l IH]; intros x H;
    inversion H as [|? ? Hx Hl]; subst.
  - now apply split_whole.
  - change (join ", " (x :: y :: l))
      with (x ++ String "," (String " " (join ", " (y :: l))))%string.
    rewrite (split_append _ _ _ Hx). f_equal.
    cbn [split]. change (Ascii.eqb " " ",") with false. cbv iota.
    now rewrite (IH y Hl).
Qed.

Lemma symbolList_no_comma (text : string) :
  Forall (fun s => includes "," s = false) (symbolList text).
Proof.
  apply Forall_forall. intros s Hs.
  apply SymbolFormFacts.symbolList_spec in Hs as [_ [piece [Hin ->]]].
  apply includes_trim.
  pose proof (split_pieces "," text) as H. rewrite Forall_forall in H.
  now apply H.
Qed.

(** Filtering out the empty strings keeps a list that has none. *)
Lemma filter_nonempty (l : list string) :
  Forall (fun s => s <> "" /\ trim s = s) l ->
  filter (fun s => (0 <? String.length s)%nat) l = l.
Proof.
  induction l as [|s l IH]; intros H; [reflexivity|].
  inversion H as [|? ? [Hs _] Hl]; subst. cbn [filter].
  destruct s; [contradiction|]. cbn. f_equal. now apply IH.
Qed.

Lemma map_trim_fixed (l : list string) :
  Forall (fun s => s <> "" /\ trim s = s) l ->
  map (fun s => trim s) l = l.
Proof.
  intros H. rewrite <- (map_id l) at 2. apply map_ext_in. intros s Hs.
  rewrite Forall_forall in H. now apply H.
Qed.

Lemma trim_space (s : string) : trim (String " " s) = trim s.
Proof. reflexivity. Qed.

(** X6. The symbols the form reads survive being joined: the [symbols]
    parameter that [connectLive] puts in the socket URL splits back, at
    the commas, into exactly the list the form produced, and the form
    reads the same list again from its own output joined by [","] and
    from the [", "]-joined text that the footer and the stream panel
    show. *)
Theorem symbols_survive_join (text : string) (schema : string) :
  let syms := symbolList text in
  (syms <> [] ->
     option_map (split ",") (param "symbols" (connectLive_params syms schema))
     = Some syms) /\
  symbolList (join "," syms) = syms /\
  symbolList (join ", " syms) = syms.
Proof.
  cbv zeta. pose proof (symbolList_no_comma text) as Hc.
  assert (Ht : Forall (fun s => s <> "" /\ trim s = s) (symbolList text))
    by (apply Forall_forall; intros s; apply SymbolFormFacts.symbolList_trimmed).
  split; [|split].
  - intros Hne. cbn [connectLive_params param String.eqb option_map].
    cbn. f_equal. now apply split_join.
  - destruct (symbolList text) as [|x l] eqn:E; [reflexivity|].
    unfold symbolList. rewrite split_join by (auto; discriminate).
    rewrite (map_trim_fixed _ Ht). now apply filter_nonempty.
  - destruct (symbolList text) as [|x l] eqn:E; [reflexivity|].
    unfold symbolList. rewrite (split_join_spaced x l Hc).
    assert (Hm : map (fun s => trim s) (x :: map (String " ") l) = x :: l).
    { inversion Ht as [|? ? [_ Hx] Hl]; subst. cbn [map]. rewrite Hx. f_equal.
      rewrite map_map. rewrite <- (map_id l) at 2. apply map_ext_in.
      intros s Hs. rewrite trim_space.
      rewrite Forall_forall in Hl. now apply Hl. }
    rewrite Hm. now apply filter_nonempty.
Qed.

Lemma symbols_survive_join_witness :
  option_map (split ",")
    (param "symbols"
       (connectLive_params (symbolList " ES.FUT , ,CL.FUT") "trades"))
  = Some ["ES.FUT"; "CL.FUT"].
Proof.
  apply (proj1 (symbols_survive_join " ES.FUT , ,CL.FUT" "trades")).
  discriminate.
Defined.

(** *** The live toggle *)

(** X7. While connected the toggle only disconnects.  Otherwise it
    connects exactly when the symbols text has a non-empty piece, with a
    non-empty list of trimmed symbols and the selected schema; and
    whenever a submit sends a request, the toggle connects with the
    symbols and the schema of that request. *)
Theorem live_toggle_calls
    (Date_toISOString : string -> completion string) (st : State) :
  handleLiveToggle true st = Some onLiveDisconnect /\
  (symbolList (symbols st) = [] -> handleLiveToggle false st = None) /\
  (symbolList (symbols st) <> [] ->
     handleLiveToggle false st =
       Some (onLiveConnect (symbolList (symbols st)) (schema st)) /\
     Forall (fun s => s <> "" /\ trim s = s) (symbolList (symbols st))) /\
  (forall req,
     handleFetchHistorical Date_toISOString st = returns (Some req) ->
     handleLiveToggle false st =
       Some (onLiveConnect (Api.symbols req) (Api.schema req))).
Proof.
  split; [reflexivity|]. split; [|split].
  - intros H. unfold handleLiveToggle. now rewrite H.
  - intros H. split.
    + unfold handleLiveToggle.
      destruct (symbolList (symbols st)); [contradiction | reflexivity].
    + apply Forall_forall. intros s. apply SymbolFormFacts.symbolList_trimmed.
  - intros req H.
    apply SymbolFormFacts.handleFetchHistorical_sent in H
      as (Hsym & Hne & Hsch & _).
    rewrite Hsym, Hsch. unfold handleLiveToggle.
    destruct (symbolList (symbols st)); [contradiction | reflexivity].
Qed.

Lemma live_toggle_calls_witness :
  let st := symbols_onChange " ES.FUT , ,CL.FUT"
              (initial "2024-01-01T00:00" "2024-01-01T01:00") in
  handleLiveToggle false st =
    Some (onLiveConnect ["ES.FUT"; "CL.FUT"] trades).
Proof.
  intros st.
  destruct (live_toggle_calls (fun s => returns s) st) as (_ & _ & H & _).
  apply H. discriminate.
Defined.

(** *** Edits *)

(** X8. Each field holds what its own last edit gave it, whatever was
    typed into the other fields in between, and what it held before when
    it was never edited; for the limit that is [parseInt] of the text, or
    100 when that is [NaN] or zero.  Emptying the limit field, or leaving
    only white space in it, sets the limit to 100. *)
Theorem fields_hold_last_edit (es : list Edit) (st : State) :
  symbols (apply_edits es st) = last (symbols_edits es) (symbols st) /\
  schema (apply_edits es st) = last (schema_edits es) (schema st) /\
  startTime (apply_edits es st) = last (start_edits es) (startTime st) /\
  endTime (apply_edits es st) = last (end_edits es) (endTime st) /\
  limit (apply_edits es st) = last (limit_edits es) (limit st) /\
  (forall v, trimStart v = "" ->
     limit (limit_onChange v st) = 100%float).
Proof.
  split; [|split; [|split; [|split; [|split]]]].
  6: { intros v Hv. unfold limit_onChange, parseInt. cbn [limit].
       rewrite Hv. reflexivity. }
  all: unfold apply_edits; revert st;
    induction es as [|e es IH]; intros st; [reflexivity|];
    cbn [fold_left]; rewrite IH;
    unfold symbols_edits, schema_edits, start_edits, end_edits, limit_edits;
    cbn [flat_map]; destruct e; cbn [app apply_edit];
    rewrite ?SessionFacts.last_cons; reflexivity.
Qed.

Lemma fields_hold_last_edit_witness :
  limit (limit_onChange "   "
           (initial "2024-01-01T00:00" "2024-01-01T01:00")) = 100%float.
Proof.
  apply (fields_hold_last_edit [] (initial "2024-01-01T00:00" "2024-01-01T01:00")).
  reflexivity.
Defined.

(** *** The default range *)

Lemma two_digits (n : nat) :
  (n < 100)%nat ->
  padStart 2 "0" (String_of_int (Z.of_nat n)) = decimal 2 n.
Proof.
  intros H.
  assert (G : forallb (fun k => String.eqb
                 (padStart 2 "0" (String_of_int (Z.of_nat k)))
                 (decimal 2 k))
                (seq 0 100) = true) by (vm_compute; reflexivity).
  rewrite forallb_forall in G. apply String.eqb_eq, G, in_seq. lia.
Qed.

Lemma four_digits (y : Z) :
  (1000 <= y <= 9999)%Z -> String_of_int y = decimal 4 (Z.to_nat y).
Proof.
  intros H.
  assert (G : forallb (fun k => String.eqb
                 (String_of_int (Z.of_nat k)) (decimal 4 k))
                (seq 1000 (9 * 1000)) = true) by (vm_compute; reflexivity).
  rewrite forallb_forall in G.
  replace y with (Z.of_nat (Z.to_nat y)) at 1 by lia.
  apply String.eqb_eq, G, in_seq. lia.
Qed.

Lemma length_decimal (width n : nat) :
  String.length (decimal width n) = width.
Proof.
  revert n. induction width as [|w IH]; intros n; [reflexivity|].
  cbn [decimal]. rewrite PriceFacts.length_append, IH. cbn. lia.
Qed.

(** X9. For a date with a four-digit year, [formatForInput] gives the
    16 characters a datetime-local input takes: the four decimal digits
    of the year, then the two decimal digits each of the month counted
    from one, of the day, of the hour and of the minute, with a leading
    zero below ten, and [-], [-], [T] and [:] between them, in that
    order. *)
Theorem formatForInput_shape (date : LocalDate) :
  (1000 <= getFullYear date <= 9999)%Z ->
  (getMonth date <= 11)%nat -> (getDate date <= 31)%nat ->
  (getHours date <= 23)%nat -> (getMinutes date <= 59)%nat ->
  formatForInput date =
    (decimal 4 (Z.to_nat (getFullYear date)) ++ "-" ++
     decimal 2 (getMonth date + 1) ++ "-" ++
     decimal 2 (getDate date) ++ "T" ++
     decimal 2 (getHours date) ++ ":" ++
     decimal 2 (getMinutes date))%string /\
  String.length (formatForInput date) = 16%nat.
Proof.
  intros Hy Hm Hd Hh Hmi.
  assert (E : formatForInput date =
    (decimal 4 (Z.to_nat (getFullYear date)) ++ "-" ++
     decimal 2 (getMonth date + 1) ++ "-" ++
     decimal 2 (getDate date) ++ "T" ++
     decimal 2 (getHours date) ++ ":" ++
     decimal 2 (getMinutes date))%string).
  { unfold formatForInput.
    rewrite (four_digits _ Hy), (two_digits (getMonth date + 1)),
      (two_digits (getDate date)), (two_digits (getHours date)),
      (two_digits (getMinutes date)) by lia.
    reflexivity. }
  split; [exact E|].
  rewrite E, !PriceFacts.length_append, !length_decimal. reflexivity.
Qed.

Lemma formatForInput_shape_witness :
  formatForInput {| getFullYear := 2024; getMonth := 0; getDate := 5;
                    getHours := 9; getMinutes := 3 |} = "2024-01-05T09:03".
Proof.
  refine (proj1 (formatForInput_shape
                   {| getFullYear := 2024; getMonth := 0; getDate := 5;
                      getHours := 9; getMinutes := 3 |} _ _ _ _ _));
    cbn; lia.
Defined.

End FormFacts.


(* ------------------------------------------------------------------ *)
(** ** Fetching and the display area *)

Module PageFacts.
Import JS Api App AppPage.

(** *** What a failed response throws *)

Lemma not_ok_throws
    (fetch : HistoricalRequest -> completion Response)
    (request : HistoricalRequest) (response : Response) :
  fetch request = returns response ->
  ok response = false ->
  fetchHistorical fetch request =
  throws
    match body response with
    | None => SyntaxError
    | Some JNull => TypeError
    | Some (JObject members) =>
        match lookup "error" members with
        | Some v => if ToBoolean (defined v) then Error (json_toString v)
                    else Error fetch_failed
        | None => Error fetch_failed
        end
    | Some _ => Error fetch_failed
    end.
Proof.
  intros Hf Hok. rewrite (FetchFacts.fetchHistorical_not_ok _ _ _ Hf Hok).
  unfold Response_json. destruct (body response) as [[| | | | |members]|];
    try reflexivity.
  cbn [bind Get]. destruct (lookup "error" members) as [v|]; [|reflexivity].
  cbn [bind]. unfold or_value. destruct (ToBoolean (defined v)); reflexivity.
Qed.



(** *** The fetch handler *)


Section Fetch.
Variable engine_message : exception -> string.


(** X12. What the server says is what the user reads: after a non-2xx
    response whose body is an object with a non-empty string as [error]
    member, the page shows that string in the error banner and nothing
    else; with the member absent or empty it shows the default message
    of [fetchHistorical]. *)
Theorem server_error_is_shown
    (fetch : HistoricalRequest -> completion Response)
    (request : HistoricalRequest) (response : Response)
    (members : list (string * json)) (pg : Page) :
  fetch request = returns response ->
  ok response = false ->
  body response = Some (JObject members) ->
  exists pg',
    handleFetchHistorical engine_message (Api.fetchHistorical fetch)
      request pg = Some pg' /\
    (forall s, lookup "error" members = Some (JString s) -> s <> "" ->
       error pg' = Some s /\ render pg' = [show_error s]) /\
    (lookup "error" members = None \/
     lookup "error" members = Some (JString "") ->
       error pg' = Some fetch_failed /\
       render pg' = [show_error fetch_failed]).
Proof.
  intros Hf Hok Hb.
  unfold handleFetchHistorical.
  rewrite (not_ok_throws _ _ _ Hf Hok), Hb. cbn [fetch_settled].
  eexists. split; [reflexivity|]. split.
  - intros s Hl Hs. rewrite Hl. cbn [ToBoolean].
    destruct (String.eqb s "") eqn:E;
      [apply String.eqb_eq in E; contradiction|].
    cbn. unfold render, error_shown. cbn. rewrite E. cbn. auto.
  - intros [Hl | Hl]; rewrite Hl; cbn; auto.
Qed.


End Fetch.


Lemma server_error_is_shown_witness :
  let response :=
    {| http_status := 404;
       body := Some (JObject [("error", JString "unknown symbol")]) |} in
  exists pg',
    handleFetchHistorical (fun _ => "exception")
      (fetchHistorical (fun _ => returns response))
      sample_request initial = Some pg' /\
    render pg' = [show_error "unknown symbol"].
Proof.
  intros response.
  destruct (server_error_is_shown (fun _ => "exception")
              (fun _ => returns response) sample_request
              response [("error", JString "unknown symbol")] initial
              eq_refl eq_refl eq_refl) as (pg' & H0 & H & _).
  exists pg'. split; [exact H0|].
  apply (H "unknown symbol"); [reflexivity | discriminate].
Defined.


(** *** The display area *)

(** X14. The display area never shows the trade tape and the chart
    together, and while the page is loading or shows an error it shows
    neither of them nor the empty-state message.  The chart is only ever
    given a non-empty array of bars, so its effect always reaches
    [setData], with the series of those bars, and its own placeholder
    for no data never appears. *)
Theorem display_is_exclusive (pg : Page) :
  (List.length (filter is_data_widget (render pg)) <= 1)%nat /\
  (loading pg = true \/ error_shown pg = true ->
     filter is_data_widget (render pg) = [] /\
     ~ In show_empty (render pg)) /\
  (forall data schema,
     In (show_HistoricalChart data schema) (render pg) ->
     data <> [] /\
     HistoricalChart.setData true data =
       Some (HistoricalChart.chartData data)).
Proof.
  destruct pg as [ld err hd [live lt syms sch]].
  unfold render, error_shown, showTradeTape, showChart, historicalTrades,
    historicalOhlcv, HistoricalChart.setData.
  cbn [loading error historicalData cells isLiveConnected liveTrades
       currentSchema].
  destruct err as [m|]; [destruct (String.eqb m "")|];
    destruct ld, sch, live, hd as [[[|b d]|[|b d]|[|b d]]|]; cbn;
    (split; [lia|]);
    (split;
       [intros [H|H]; try discriminate;
        (split; [reflexivity|]); intros H';
        repeat (destruct H' as [H'|H']; try discriminate); contradiction|]);
    intros data schema H';
    repeat (destruct H' as [H'|H']; try discriminate); try contradiction;
    injection H' as <- <-; (split; [discriminate | reflexivity]).
Qed.

Lemma display_is_exclusive_witness :
  let pg := {| loading := true; error := None;
               historicalData := Some (response_trades []);
               cells := App.initial |} in
  filter is_data_widget (render pg) = [].
Proof.
  intros pg. apply (display_is_exclusive pg). left. reflexivity.
Defined.

(** X15. A live session on an OHLCV schema shows nothing: on a page that
    is neither loading nor in error and holds no bars from an earlier
    query, after [handleLiveConnect] with [ohlcv-1s] or [ohlcv-1m] the
    display area is empty, and it stays empty whatever the socket
    delivers, trades included, until the socket closes. *)
Theorem live_ohlcv_shows_nothing
    (pg : Page) (p : LiveStream.Props) (evs : list LiveStream.Event)
    (symbols : list string) (schema : Schema) :
  loading pg = false -> error_shown pg = false ->
  historicalOhlcv pg = [] ->
  schema <> trades ->
  existsb LiveStream.is_close evs = false ->
  render (live (fun st =>
                  dispatch (snd (LiveStream.run evs (LiveStream.mount p)))
                           (handleLiveConnect symbols schema st)) pg) = [].
Proof.
  intros Hld Herr Hoh Hsch Hcl.
  destruct (SessionFacts.session_cells p evs symbols schema (cells pg))
    as (_ & Hlive & _ & Hs). cbv zeta in Hlive, Hs.
  unfold render, error_shown, showTradeTape, showChart, historicalOhlcv,
    live in *. cbn [loading error historicalData cells] in *.
  rewrite Hld, Hs, Hlive, Hcl. rewrite Herr. cbn.
  destruct (error pg) as [m|]; [destruct (String.eqb m ""); [|discriminate]|];
    destruct schema; try contradiction; cbn;
    destruct (historicalData pg) as [[d|d|d]|]; cbn in *; subst;
    reflexivity.
Qed.

Lemma live_ohlcv_shows_nothing_witness :
  render (live (fun st =>
                  dispatch (snd (LiveStream.run LiveStream.sample_events
                                   (LiveStream.mount LiveStream.sample_props)))
                           (handleLiveConnect ["ES.FUT"] ohlcv_1s st))
               initial) = [].
Proof.
  apply live_ohlcv_shows_nothing; try reflexivity. discriminate.
Defined.

End PageFacts.


(* ------------------------------------------------------------------ *)
(** ** The trade table *)

Module TapeFacts.
Import JS Api TradeTape.

Lemma to_uint_not_nil (n : N) : N.to_uint n <> Decimal.Nil.
Proof.
  destruct n as [|p]; [discriminate|].
  apply DecimalPos.Unsigned.to_uint_nonnil.
Qed.

Lemma digits_injective (a b : Z) :
  (0 <= a)%Z -> (0 <= b)%Z -> digits a = digits b -> a = b.
Proof.
  intros Ha Hb H. unfold digits in H.
  apply (f_equal NilZero.uint_of_string) in H.
  rewrite !NilZero.usu in H by apply to_uint_not_nil.
  injection H as H. apply DecimalN.Unsigned.to_uint_inj in H. lia.
Qed.

Lemma uint_no_dash (d : Decimal.uint) :
  includes "-" (NilEmpty.string_of_uint d) = false.
Proof. induction d; cbn; auto. Qed.

Lemma digits_no_dash (n : Z) : includes "-" (digits n) = false.
Proof.
  unfold digits, NilZero.string_of_uint.
  destruct (N.to_uint (Z.to_N n)) eqn:E; try reflexivity;
    rewrite <- E; apply uint_no_dash.
Qed.

Lemma includes_append (c : ascii) (s t : string) :
  includes c (s ++ t) = (includes c s || includes c t)%bool.
Proof.
  induction s as [|a s IH]; [reflexivity|]. cbn. rewrite IH.
  now rewrite orb_assoc.
Qed.

(** What follows the last [-] of a text is determined by the text. *)
Lemma after_last_dash (s1 s2 d1 d2 : string) :
  includes "-" d1 = false -> includes "-" d2 = false ->
  (s1 ++ "-" ++ d1 = s2 ++ "-" ++ d2)%string -> d1 = d2.
Proof.
  intros H1 H2. revert s2.
  induction s1 as [|c s1 IH]; intros [|c' s2] H; cbn in H.
  - now injection H.
  - injection H as _ H. rewrite H, includes_append in H1. cbn in H1.
    rewrite orb_true_r in H1. discriminate.
  - injection H as _ H. rewrite <- H, includes_append in H2. cbn in H2.
    rewrite orb_true_r in H2. discriminate.
  - injection H as _ H. now apply (IH s2).
Qed.

Lemma row_key_index (t1 t2 : TradeRecord) (i j : nat) :
  row_key t1 i = row_key t2 j -> i = j.
Proof.
  unfold row_key, String_of_int. intros H.
  assert (Hi : (Z.of_nat i <? 0)%Z = false) by (apply Z.ltb_ge; lia).
  assert (Hj : (Z.of_nat j <? 0)%Z = false) by (apply Z.ltb_ge; lia).
  rewrite Hi, Hj in H. cbn [append] in H.
  rewrite !Z.abs_eq in H by lia.
  apply after_last_dash in H; try apply digits_no_dash.
  apply digits_injective in H; lia.
Qed.

Lemma indexed_fst {A : Type} (l : list A) :
  map fst (indexed l) = seq 0 (List.length l).
Proof.
  unfold indexed. generalize 0%nat as start.
  induction l as [|x l IH]; intros start; [reflexivity|].
  cbn. f_equal. apply IH.
Qed.

Lemma indexed_snd {A : Type} (l : list A) : map snd (indexed l) = l.
Proof.
  unfold indexed. generalize 0%nat as start.
  induction l as [|x l IH]; intros start; [reflexivity|].
  cbn. f_equal. apply IH.
Qed.

Lemma NoDup_map_finer {A B C : Type} (f : A -> B) (g : A -> C) (l : list A) :
  (forall a b, f a = f b -> g a = g b) ->
  NoDup (map g l) -> NoDup (map f l).
Proof.
  intros Hfg. induction l as [|a l IH]; intros H; [constructor|].
  cbn in *. inversion H as [|? ? Hnot Hrest]; subst.
  constructor; [|now apply IH].
  intros Hin. apply Hnot. apply in_map_iff in Hin as [b [Hb Hin]].
  apply in_map_iff. exists b. split; [now apply Hfg | exact Hin].
Qed.

(** X16. The component shows its placeholder exactly for an empty array.
    Otherwise the table announces as many records as there are trades,
    has one row per trade in the order of the array, and gives the rows
    keys that are pairwise distinct, also for trades of one and the same
    timestamp. *)
Theorem trade_table_rows (trades : list TradeRecord) (title : option string) :
  match TradeTape trades title with
  | no_trades _ => trades = []
  | table _ records body =>
      trades <> [] /\
      records = List.length trades /\
      map snd body = map TradeRow trades /\
      NoDup (map fst body)
  end.
Proof.
  unfold TradeTape. destruct trades as [|t trades]; [reflexivity|].
  cbn [List.length Nat.eqb]. split; [discriminate|]. split; [reflexivity|].
  set (l := t :: trades). split.
  - rewrite map_map.
    rewrite <- (indexed_snd l) at 2. rewrite map_map.
    apply map_ext. now intros [idx trade].
  - rewrite map_map.
    apply (NoDup_map_finer _ fst).
    + intros [i a] [j b] H. cbn in *. now apply row_key_index in H.
    + rewrite indexed_fst. apply seq_NoDup.
Qed.

End TapeFacts.


(* ------------------------------------------------------------------ *)
(** ** What the tape prints *)

Module TapePriceFacts.
Import JS Api TradeTape.

(** X17. The price a row prints is the price in hundredths, rounded to
    the nearest: when the quotient [price_i64 / 1e9] is finite, not zero
    and below [10^21], with the value [num / den], the digits of the
    cell, without the point, are those of an integer [cents >= 0],
    zero-padded to three, and [cents / 100] is within half a hundredth
    of [num / den]. *)
Theorem price_cell_nearest_cent
    (trade : TradeRecord) (sign : bool) (m : positive) (e : Z) :
  Prim2SF (formatPriceNumber (price_i64 trade)) = S754_finite sign m e ->
  (fst (fraction m e) < 10 ^ 21 * snd (fraction m e))%Z ->
  exists (cents : Z) (whole frac : string),
    price_cell (TradeRow trade) =
      ((if sign then "-" else "") ++ whole ++ "." ++ frac)%string /\
    String.length frac = 2%nat /\
    (whole ++ frac)%string =
      (zeros (3 - String.length (digits cents)) ++ digits cents)%string /\
    (0 <= cents)%Z /\
    (Z.abs (200 * fst (fraction m e) - 2 * snd (fraction m e) * cents)
       <= snd (fraction m e))%Z.
Proof.
  intros Hq Hlt.
  destruct (PriceFacts.toFixed_two_places _ sign m e Hq Hlt)
    as (n & whole & frac & Ht & Hf & _ & Hd & Hn).
  exists n, whole, frac. split; [exact Ht|]. split; [exact Hf|].
  split; [exact Hd|].
  pose proof (PriceFacts.fraction_positive m e) as [Hnum Hden].
  split; [nia | lia].
Qed.

Lemma price_cell_nearest_cent_witness :
  exists (cents : Z) (whole frac : string),
    price_cell (TradeRow {| ts_event_unix_ns := 1704067200000000000%float;
                            symbol := "ES.FUT";
                            price_i64 := 4512250000000%float;
                            size_u32 := 3%float |}) =
      (whole ++ "." ++ frac)%string /\
    (whole ++ frac)%string = digits cents /\ cents = 451225%Z.
Proof.
  destruct (price_cell_nearest_cent
              {| ts_event_unix_ns := 1704067200000000000%float;
                 symbol := "ES.FUT"; price_i64 := 4512250000000%float;
                 size_u32 := 3%float |}
              false 4961271342432256%positive (-40)%Z eq_refl eq_refl)
    as (cents & whole & frac & Hc & _ & Hd & Hp & Hb).
  exists 451225%Z, "4512", "25". repeat split.
Defined.

(** X18. The live tape: after a session in which at least one trade
    arrived, the component given the buffer of [App] shows a table of as
    many rows as trades arrived, at most 100, and the rows are those of
    the trades from the newest back. *)
Theorem live_tape_rows
    (p : LiveStream.Props) (evs : list LiveStream.Event)
    (symbols : list string) (schema : Schema) (app : App.State) :
  LiveStream.received evs <> [] ->
  exists body,
    TradeTape
      (App.liveTrades
         (App.dispatch (snd (LiveStream.run evs (LiveStream.mount p)))
                       (App.handleLiveConnect symbols schema app)))
      (Some "Live Trades") =
    table "Live Trades"
          (Nat.min 100 (List.length (LiveStream.received evs))) body /\
    map snd body =
      map TradeRow (firstn 100 (rev (LiveStream.received evs))).
Proof.
  intros Hne.
  destruct (SessionFacts.session_cells p evs symbols schema app)
    as (Hbuf & _). cbv zeta in Hbuf. rewrite Hbuf.
  set (buffer := firstn 100 (rev (LiveStream.received evs))).
  assert (Hlen : List.length buffer =
                 Nat.min 100 (List.length (LiveStream.received evs)))
    by (unfold buffer; now rewrite length_firstn, length_rev).
  assert (Hb : buffer <> []).
  { intros H. rewrite H in Hlen. cbn in Hlen.
    destruct (LiveStream.received evs); [contradiction | cbn in Hlen; lia]. }
  unfold TradeTape. destruct buffer as [|t rest] eqn:E; [contradiction|].
  cbn [List.length Nat.eqb]. eexists. split.
  - rewrite <- Hlen. reflexivity.
  - rewrite map_map. rewrite <- (TapeFacts.indexed_snd (t :: rest)) at 2.
    rewrite map_map. apply map_ext. now intros [idx trade].
Qed.

Lemma live_tape_rows_witness :
  exists body,
    TradeTape
      (App.liveTrades
         (App.dispatch
            (snd (LiveStream.run LiveStream.sample_events
                    (LiveStream.mount LiveStream.sample_props)))
            (App.handleLiveConnect ["ES.FUT"] trades App.initial)))
      (Some "Live Trades") = table "Live Trades" 2 body.
Proof.
  destruct (live_tape_rows LiveStream.sample_props LiveStream.sample_events
              ["ES.FUT"] trades App.initial) as [body [H _]];
    [discriminate|].
  exists body. exact H.
Defined.

End TapePriceFacts.
